(** * Ubuntu Image Fetcher: a shallow embedding of [ubuntu_image_fetcher.py]

    The script downloads each URL of a batch, checks the declared content
    type, derives a file name, writes the body to a temporary file, scans the
    target directory for a file with the same SHA-256 digest and either drops
    the temporary file or renames it to its final name.

    The embedding follows the Python text.  A [bytes] object is a [string]
    (a sequence of 8-bit characters), and a [str] is the [string] of its
    UTF-8 bytes.  The network, the clock, the
    target directory, the console and a log of the system calls form a
    [world] that is threaded through a state-and-exception monad; Python's
    [try]/[except]/[finally] and the local variables that are read outside
    the [try] body are modelled explicitly. *)

From Stdlib Require Import String Ascii List Bool Arith NArith Lia.
From Stdlib Require Import DecimalString.
Import ListNotations.
Set Default Proof Using "Type".
Local Open Scope list_scope.
Local Open Scope string_scope.

(** ** Strings *)

Module Str.

(** [c in s] for a single character. *)
Fixpoint contains_char (c : ascii) (s : string) : bool :=
  match s with
  | EmptyString => false
  | String a r => Ascii.eqb a c || contains_char c r
  end.

(** [str.lower] restricted to the ASCII letters; the suffixes the program
    looks for are ASCII and no other character lowers to one of theirs. *)
Definition lower_ascii (c : ascii) : ascii :=
  let n := nat_of_ascii c in
  if ((65 <=? n) && (n <=? 90))%nat then ascii_of_nat (n + 32) else c.

Fixpoint lower (s : string) : string :=
  match s with
  | EmptyString => EmptyString
  | String a r => String (lower_ascii a) (lower r)
  end.

(** [s.endswith(suf)] *)
Fixpoint endswith (s suf : string) : bool :=
  String.eqb s suf ||
  match s with
  | EmptyString => false
  | String _ r => endswith r suf
  end.

(** [s.endswith(tuple)] *)
Definition endswith_any (s : string) (sufs : list string) : bool :=
  existsb (endswith s) sufs.

(** [s.startswith(c)] for one character *)
Definition starts_with_char (c : ascii) (s : string) : bool :=
  match s with
  | EmptyString => false
  | String a _ => Ascii.eqb a c
  end.

Fixpoint last_char (s : string) : option ascii :=
  match s with
  | EmptyString => None
  | String a EmptyString => Some a
  | String _ r => last_char r
  end.

(** [p] is a prefix of [s]: what is left of [s] after it. *)
Fixpoint strip_prefix (p s : string) : option string :=
  match p, s with
  | EmptyString, _ => Some s
  | String a p', String b s' =>
      if Ascii.eqb a b then strip_prefix p' s' else None
  | String _ _, EmptyString => None
  end.

(** [sub in s] *)
Fixpoint contains (sub s : string) : bool :=
  match strip_prefix sub s with
  | Some _ => true
  | None =>
      match s with
      | EmptyString => false
      | String _ r => contains sub r
      end
  end.

(** The white space of [str.strip] among the ASCII characters: the
    controls 9 to 13 and 28 to 31, and the blank. *)
Definition is_space (c : ascii) : bool :=
  let n := nat_of_ascii c in
  (((9 <=? n) && (n <=? 13)) || ((28 <=? n) && (n <=? 32)))%nat.

(** The other white space of [str.strip], in the UTF-8 bytes of the text:
    U+0085 and U+00A0 take two bytes, *)
Definition is_space2 (a b : ascii) : bool :=
  let m := nat_of_ascii a in
  let n := nat_of_ascii b in
  ((m =? 194) && ((n =? 133) || (n =? 160)))%nat.

(** and U+1680, U+2000 to U+200A, U+2028, U+2029, U+202F, U+205F and U+3000
    take three. *)
Definition is_space3 (a b c : ascii) : bool :=
  let m := nat_of_ascii a in
  let n := nat_of_ascii b in
  let k := nat_of_ascii c in
  (((m =? 225) && (n =? 154) && (k =? 128))
   || ((m =? 226) && (n =? 128)
       && (((128 <=? k) && (k <=? 138)) || (k =? 168) || (k =? 169)
           || (k =? 175)))
   || ((m =? 226) && (n =? 129) && (k =? 159))
   || ((m =? 227) && (n =? 128) && (k =? 128)))%nat.

(** [s.lstrip()] *)
Fixpoint lstrip (s : string) : string :=
  match s with
  | EmptyString => EmptyString
  | String a r =>
      if is_space a then lstrip r
      else
        match r with
        | EmptyString => s
        | String b r2 =>
            if is_space2 a b then lstrip r2
            else
              match r2 with
              | EmptyString => s
              | String c r3 => if is_space3 a b c then lstrip r3 else s
              end
        end
  end.

(** [s.rstrip()]: nothing is left of a text that is white space only;
    else its first byte stays, and the rest is handled likewise. *)
Fixpoint rstrip (s : string) : string :=
  match s with
  | EmptyString => EmptyString
  | String a r =>
      match lstrip s with
      | EmptyString => EmptyString
      | _ => String a (rstrip r)
      end
  end.

(** [s.strip()] *)
Definition strip (s : string) : string := rstrip (lstrip s).

End Str.

(** ** [os.path] on POSIX path names *)

Module Path.

(** [os.path.basename(p)]: what follows the last slash. *)
Fixpoint basename (p : string) : string :=
  match p with
  | EmptyString => EmptyString
  | String c r =>
      if Str.contains_char "/" r then basename r
      else if Ascii.eqb c "/" then r else p
  end.

(** The directory part of a joined path, with its separator. *)
Definition dirprefix (d : string) : string :=
  match Str.last_char d with
  | None => EmptyString
  | Some c => if Ascii.eqb c "/" then d else d ++ "/"
  end.

(** [os.path.join(d, n)] *)
Definition join (d n : string) : string :=
  if Str.starts_with_char "/" n then n else dirprefix d ++ n.

(** The longest name of an entry, in bytes ([NAME_MAX]). *)
Definition name_max : nat := 255.

(** Some component of the path, between two slashes, is longer than that;
    [run] counts the bytes of the component at hand. *)
Fixpoint too_long_from (run : nat) (p : string) : bool :=
  match p with
  | EmptyString => (name_max <? run)%nat
  | String c r =>
      if Ascii.eqb c "/" then (name_max <? run)%nat || too_long_from 0 r
      else too_long_from (S run) r
  end.

(** The longest path, its final NUL included ([PATH_MAX]). *)
Definition path_max : nat := 4096.

Definition too_long (p : string) : bool :=
  too_long_from 0 p || (path_max <=? String.length p)%nat.

(** The path holds a NUL byte. *)
Definition has_nul (p : string) : bool := Str.contains_char zero p.

(** What comes before the first slash. *)
Fixpoint first_component (p : string) : string :=
  match p with
  | EmptyString => EmptyString
  | String c r =>
      if Ascii.eqb c "/" then EmptyString else String c (first_component r)
  end.

End Path.

(** ** The pure helpers of the script *)

(** [is_valid_image]: membership of the header value in the list. *)
Definition valid_types : list string :=
  ["image/jpeg"; "image/png"; "image/gif"; "image/bmp"].

Definition is_valid_image (content_type : string) : bool :=
  existsb (String.eqb content_type) valid_types.

(** The suffixes accepted on a file name taken from the URL. *)
Definition image_suffixes : list string :=
  [".jpg"; ".jpeg"; ".png"; ".gif"; ".bmp"].

(** [datetime.datetime.now()], to the second. *)
Record datetime := mkDatetime {
  year : N; month : N; day : N;
  hour : N; minute : N; second : N }.

Definition digit (d : N) : ascii := ascii_of_N (48 + d)%N.

(** A zero-padded two-digit field ([%m], [%d], [%H], [%M], [%S]). *)
Definition pad2 (n : N) : string :=
  String (digit (n / 10)%N) (String (digit (n mod 10)%N) EmptyString).

(** The four-digit year ([%Y]). *)
Definition pad4 (n : N) : string :=
  String (digit (n / 1000)%N) (String (digit (n / 100 mod 10)%N)
    (String (digit (n / 10 mod 10)%N) (String (digit (n mod 10)%N) EmptyString))).

(** [t.strftime("%Y%m%d_%H%M%S")] *)
Definition strftime (t : datetime) : string :=
  pad4 (year t) ++ pad2 (month t) ++ pad2 (day t) ++ "_"
  ++ pad2 (hour t) ++ pad2 (minute t) ++ pad2 (second t).


(** Lines 53-55: keep the name when it is not empty and carries an image
    suffix, else make one from the clock. *)
Definition keeps_name (filename : string) : bool :=
  negb (String.eqb filename EmptyString)
  && Str.endswith_any (Str.lower filename) image_suffixes.

Definition choose_filename (filename : string) (t : datetime) : string :=
  if keeps_name filename then filename
  else "image_" ++ strftime t ++ ".jpg".


(** The extension of a file name, in the words of the specification: the
    name from its last dot on, and nothing when the name has no dot. *)
Fixpoint extension (name : string) : string :=
  match name with
  | EmptyString => EmptyString
  | String c r =>
      if Str.contains_char "." r then extension r
      else if Ascii.eqb c "." then name else EmptyString
  end.










(** [str(n)] for a count. *)
Definition str_of_nat (n : nat) : string :=
  NilEmpty.string_of_uint (Nat.to_uint n).

Definition newline : string := String (ascii_of_nat 10) EmptyString.

(** ** Exceptions *)

(** The classes the handlers of the script tell apart; every other
    subclass of [Exception] is an [OtherException]. *)
Inductive exn_class :=
| HTTPError | ConnectionError | Timeout | RequestException
| PermissionError | FileNotFoundError | IsADirectoryError
| NotADirectoryError | EOFError | UnboundLocalError | OtherException.

Record exn := mkExn { class_of : exn_class; str_of : string }.

Definition exn_class_eqb (a b : exn_class) : bool :=
  match a, b with
  | HTTPError, HTTPError | ConnectionError, ConnectionError
  | Timeout, Timeout | RequestException, RequestException
  | PermissionError, PermissionError | FileNotFoundError, FileNotFoundError
  | IsADirectoryError, IsADirectoryError
  | NotADirectoryError, NotADirectoryError | EOFError, EOFError
  | UnboundLocalError, UnboundLocalError
  | OtherException, OtherException => true
  | _, _ => false
  end.

(** Reading a local variable that no assignment has reached. *)
Definition unbound (var : string) : exn :=
  mkExn UnboundLocalError
    ("cannot access local variable '" ++ var
     ++ "' where it is not associated with a value").

Definition os_error (c : exn_class) (what path : string) : exn :=
  mkExn c (what ++ ": '" ++ path ++ "'").

(** A call either returns a value or raises. *)
Inductive outcome (A : Type) : Type :=
| Return (a : A)
| Raise (e : exn).
Arguments Return {A} a.
Arguments Raise {A} e.

(** The class of the exception of a call that raised. *)
Definition class_of_outcome {A} (r : outcome A) : option exn_class :=
  match r with
  | Return _ => None
  | Raise e => Some (class_of e)
  end.

(** ** The world *)

(** An entry of the target directory: a regular file, or a subdirectory,
    of which nothing is known to lie below. *)
Inductive node :=
| File (content : string)
| Dir.

(** The entries of the target directory in the order [os.listdir] gives
    them. *)
Definition listing := list (string * node).

Fixpoint lookup (n : string) (l : listing) : option node :=
  match l with
  | [] => None
  | (m, x) :: r => if String.eqb m n then Some x else lookup n r
  end.

(** Replace the entry of that name, or add it at the end. *)
Fixpoint set_entry (n : string) (x : node) (l : listing) : listing :=
  match l with
  | [] => [(n, x)]
  | (m, y) :: r =>
      if String.eqb m n then (m, x) :: r else (m, y) :: set_entry n x r
  end.

Fixpoint remove_entry (n : string) (l : listing) : listing :=
  match l with
  | [] => []
  | (m, y) :: r =>
      if String.eqb m n then remove_entry n r else (m, y) :: remove_entry n r
  end.

(** What [requests.get] hands back. *)
Record response := mkResponse {
  status_code : nat;
  content_type : option string;   (* the Content-Type header, if any *)
  content : string }.

(** A failure of a system call that the state of the directory does not
    explain: a refusal ([PermissionError]) or any other exception. *)
Inductive fault :=
| Denied
| Broken (msg : string).

(** The text of a refusal is cut short: the system ends it with the
    path. *)
Definition exn_of_fault (f : fault) : exn :=
  match f with
  | Denied => mkExn PermissionError "[Errno 13] Permission denied"
  | Broken msg => mkExn OtherException msg
  end.

Inductive syscall :=
| SGet (url : string)
| SMakedirs (d : string)
| SOpenW (path : string)
| SWrite (path data : string)
| SOpenR (path : string)
| SListdir (d : string)
| SExists (path : string)
| SRemove (path : string)
| SRename (src dst : string).

(** A call and whether it went through (for [SExists]: its answer). *)
Inductive event := Ev (c : syscall) (ok : bool).

Record world := mkWorld {
  http : string -> outcome response;   (* the outcome of a GET of a URL *)
  now : datetime;                      (* the clock *)
  dir : option listing;                (* the target directory, if it exists *)
  faults : list (option fault);        (* the faults of the calls to come *)
  stdout : list string;                (* the lines printed so far *)
  trace : list event }.                (* the system calls made so far *)

Definition set_dir (d : option listing) (w : world) : world :=
  mkWorld (http w) (now w) d (faults w) (stdout w) (trace w).
Definition set_faults (fs : list (option fault)) (w : world) : world :=
  mkWorld (http w) (now w) (dir w) fs (stdout w) (trace w).
Definition add_stdout (line : string) (w : world) : world :=
  mkWorld (http w) (now w) (dir w) (faults w) (stdout w ++ [line]) (trace w).
Definition set_now (t : datetime) (w : world) : world :=
  mkWorld (http w) t (dir w) (faults w) (stdout w) (trace w).
Definition add_trace (e : event) (w : world) : world :=
  mkWorld (http w) (now w) (dir w) (faults w) (stdout w) (trace w ++ [e]).

(** ** The monad: state and exceptions *)

Definition M (S A : Type) : Type := S -> outcome A * S.

Definition ret {S A} (a : A) : M S A := fun s => (Return a, s).
Definition raise {S A} (e : exn) : M S A := fun s => (Raise e, s).
Definition bind {S A B} (m : M S A) (k : A -> M S B) : M S B :=
  fun s =>
    match m s with
    | (Return a, s') => k a s'
    | (Raise e, s') => (Raise e, s')
    end.

Notation "x <- m ;; k" := (bind m (fun x => k))
  (at level 61, m at next level, right associativity).
Notation "m ;;; k" := (bind m (fun _ => k))
  (at level 61, right associativity).

(** [try: body / except Exception as e: handler e] *)
Definition try_except {S A} (body : M S A) (handler : exn -> M S A) : M S A :=
  fun s =>
    match body s with
    | (Return a, s') => (Return a, s')
    | (Raise e, s') => handler e s'
    end.

(** [try: body / finally: final]: [final] runs on every exit of [body];
    when it raises, its exception replaces the pending result. *)
Definition try_finally {S A} (body : M S A) (final : M S unit) : M S A :=
  fun s =>
    match body s with
    | (r, s') =>
        match final s' with
        | (Return _, s'') => (r, s'')
        | (Raise e, s'') => (Raise e, s'')
        end
    end.

(** The local variables of [fetch_and_save_image] that are read outside
    the [try] body. *)
Record frame := mkFrame {
  file_path : option string;
  temp_path : option string }.

Definition empty_frame : frame := mkFrame None None.

Definition lift {A} (m : M world A) : M (frame * world) A :=
  fun s =>
    match m (snd s) with
    | (r, w') => (r, (fst s, w'))
    end.

Definition assign_file_path (v : string) : M (frame * world) unit :=
  fun s => (Return tt, (mkFrame (Some v) (temp_path (fst s)), snd s)).
Definition assign_temp_path (v : string) : M (frame * world) unit :=
  fun s => (Return tt, (mkFrame (file_path (fst s)) (Some v), snd s)).

Definition read_local (var : string) (get : frame -> option string)
  : M (frame * world) string :=
  fun s =>
    match get (fst s) with
    | Some v => (Return v, s)
    | None => (Raise (unbound var), s)
    end.

(** ** The console, the clock and the fault schedule *)

Definition print (line : string) : M world unit :=
  fun w => (Return tt, add_stdout line w).

Definition log (c : syscall) (ok : bool) : M world unit :=
  fun w => (Return tt, add_trace (Ev c ok) w).

Definition clock : M world datetime := fun w => (Return (now w), w).

(** The schedule once its first entry is used up. *)
Definition pop (w : world) : world :=
  match faults w with
  | [] => w
  | _ :: fs => set_faults fs w
  end.

Arguments pop : simpl never.

Definition next_fault : M world (option fault) :=
  fun w => (Return (hd None (faults w)), pop w).

(** A call that the state rules out. *)
Definition refuse {A} (c : syscall) (e : exn) : M world A :=
  log c false ;;; raise e.

(** A call that fails whatever happens: with the error of the fault that
    is due, if one is, else with its own. *)
Definition fail_with {A} (c : syscall) (e : exn) : M world A :=
  f <- next_fault ;;
  log c false ;;;
  raise (match f with
         | Some x => exn_of_fault x
         | None => e
         end).

(** A call that the state allows: it goes through unless a fault is due. *)
Definition attempt {A} (c : syscall) (run : M world A) : M world A :=
  f <- next_fault ;;
  match f with
  | Some x => log c false ;;; raise (exn_of_fault x)
  | None => log c true ;;; run
  end.

(** ** The script *)

Section Script.

(** [hashlib.sha256]: the hexadecimal digest of a byte sequence.  Feeding
    the chunks of a file one by one gives the digest of the whole. *)
Variable sha256 : string -> string.

(** [urlparse(url).path] *)
Variable urlparse_path : string -> string.

Section Calls.

(** The path of the target directory; [dir] holds its entries. *)
Variable directory : string.

(** The entry of the target directory that a path names. *)
Definition entry_of (path : string) : option string :=
  Str.strip_prefix (Path.dirprefix directory) path.

Definition stat (path : string) (w : world) : option node :=
  match dir w, entry_of path with
  | Some l, Some n => lookup n l
  | _, _ => None
  end.

Definition put (path : string) (x : node) (w : world) : world :=
  match dir w, entry_of path with
  | Some l, Some n => set_dir (Some (set_entry n x l)) w
  | _, _ => w
  end.

Definition drop (path : string) (w : world) : world :=
  match dir w, entry_of path with
  | Some l, Some n => set_dir (Some (remove_entry n l)) w
  | _, _ => w
  end.

(** Why a path that names no entry is turned down, if it is for another
    reason than the want of the entry: [ValueError] for a NUL byte,
    [OSError] 36 for a component longer than [NAME_MAX] or a path longer
    than [PATH_MAX], [IsADirectoryError] when what follows the directory
    is empty or a dot component, [NotADirectoryError] when the path runs
    through an entry that is a regular file.  The first two are
    [OtherException]s for the handlers.  The paths that the script builds
    are the text of the directory followed by the name of an entry; a path
    that is written otherwise is not followed further. *)
Definition path_error (path : string) (w : world) : option exn :=
  if Path.has_nul path then
    Some (mkExn OtherException "embedded null byte")
  else if Path.too_long path then
    Some (os_error OtherException "[Errno 36] File name too long" path)
  else
    match dir w, entry_of path with
    | Some l, Some n =>
        if String.eqb n EmptyString || String.eqb n "." || String.eqb n ".."
        then
          Some (os_error IsADirectoryError "[Errno 21] Is a directory" path)
        else if Str.contains_char "/" n then
          match lookup (Path.first_component n) l with
          | Some (File _) =>
              Some (os_error NotADirectoryError "[Errno 20] Not a directory"
                      path)
          | _ => None
          end
        else None
    | _, _ => None
    end.

(** The exception of a call on a path that names nothing. *)
Definition no_entry (path : string) (w : world) : exn :=
  match path_error path w with
  | Some e => e
  | None =>
      os_error FileNotFoundError "[Errno 2] No such file or directory" path
  end.

(** [requests.get(url, headers=headers, timeout=10)] *)
Definition requests_get (url : string) : M world response :=
  fun w =>
    match http w url with
    | Return r => (Return r, add_trace (Ev (SGet url) true) w)
    | Raise e => (Raise e, add_trace (Ev (SGet url) false) w)
    end.

(** The statuses [raise_for_status] takes for errors. *)
Definition is_http_error (r : response) : bool :=
  (400 <=? status_code r)%nat && (status_code r <? 600)%nat.

(** [response.raise_for_status()]; the text of the error is cut short:
    [requests] puts the kind of error and the reason phrase of the server,
    which [response] does not hold, between the status and the URL. *)
Definition raise_for_status {S} (url : string) (r : response) : M S unit :=
  if is_http_error r
  then raise (mkExn HTTPError
                (str_of_nat (status_code r) ++ " Error for url: " ++ url))
  else ret tt.

(** [response.headers.get('Content-Type', '')] *)
Definition declared_type (r : response) : string :=
  match content_type r with
  | Some v => v
  | None => EmptyString
  end.

(** [os.makedirs(directory, exist_ok=True)] *)
Definition os_makedirs : M world unit :=
  attempt (SMakedirs directory)
    (fun w => match dir w with
              | Some _ => (Return tt, w)
              | None => (Return tt, set_dir (Some []) w)
              end).

(** [open(path, "wb")]: the file is created, or emptied when it is there. *)
Definition open_wb (path : string) : M world unit :=
  fun w =>
    match dir w, entry_of path with
    | Some l, Some n =>
        match lookup n l with
        | Some Dir =>
            refuse (SOpenW path)
              (os_error IsADirectoryError "[Errno 21] Is a directory" path) w
        | Some (File _) =>
            attempt (SOpenW path)
              (fun w' => (Return tt, put path (File EmptyString) w')) w
        | None =>
            match path_error path w with
            | Some e => refuse (SOpenW path) e w
            | None =>
                attempt (SOpenW path)
                  (fun w' => (Return tt, put path (File EmptyString) w')) w
            end
        end
    | _, _ => refuse (SOpenW path) (no_entry path w) w
    end.

(** [f.write(data)] on the file opened at [path], and its closing. *)
Definition file_write (path data : string) : M world unit :=
  attempt (SWrite path data) (fun w => (Return tt, put path (File data) w)).

(** [open(path, "rb")] and the reading of the whole file.  The opening of
    a path that names nothing fails for want of the entry, unless another
    failure comes first: a NUL byte in the path, which no system call
    sees, or a fault, as that of a directory that may not be searched. *)
Definition read_file (path : string) : M world string :=
  fun w =>
    match stat path w with
    | None =>
        if Path.has_nul path then refuse (SOpenR path) (no_entry path w) w
        else fail_with (SOpenR path) (no_entry path w) w
    | Some Dir =>
        refuse (SOpenR path)
          (os_error IsADirectoryError "[Errno 21] Is a directory" path) w
    | Some (File c) => attempt (SOpenR path) (ret c) w
    end.

(** [get_file_hash] (lines 8-17) *)
Definition get_file_hash (filepath : string) : M world (option string) :=
  try_except
    (c <- read_file filepath ;; ret (Some (sha256 c)))
    (fun e =>
       if exn_class_eqb (class_of e) FileNotFoundError then ret None
       else raise e).

(** [os.listdir(directory)] *)
Definition os_listdir : M world (list string) :=
  fun w =>
    match dir w with
    | None =>
        refuse (SListdir directory)
          (os_error FileNotFoundError "[Errno 2] No such file or directory"
             directory) w
    | Some l => attempt (SListdir directory) (ret (map fst l)) w
    end.

(** [os.path.exists(path)] *)
Definition os_path_exists (path : string) : M world bool :=
  fun w =>
    match stat path w with
    | Some _ => (Return true, add_trace (Ev (SExists path) true) w)
    | None => (Return false, add_trace (Ev (SExists path) false) w)
    end.

(** [os.remove(path)] *)
Definition os_remove (path : string) : M world unit :=
  fun w =>
    match stat path w with
    | None => refuse (SRemove path) (no_entry path w) w
    | Some Dir =>
        refuse (SRemove path)
          (os_error IsADirectoryError "[Errno 21] Is a directory" path) w
    | Some (File _) =>
        attempt (SRemove path) (fun w' => (Return tt, drop path w')) w
    end.

(** [os.rename(src, dst)]: an existing [dst] is replaced. *)
Definition os_rename (src dst : string) : M world unit :=
  fun w =>
    match stat src w, entry_of dst with
    | Some x, Some _ =>
        match x, stat dst w with
        | File _, Some Dir =>
            refuse (SRename src dst)
              (os_error IsADirectoryError "[Errno 21] Is a directory" dst) w
        | Dir, Some (File _) =>
            refuse (SRename src dst)
              (os_error NotADirectoryError "[Errno 20] Not a directory" dst) w
        | _, _ =>
            attempt (SRename src dst)
              (fun w' => (Return tt, put dst x (drop src w'))) w
        end
    | _, _ => refuse (SRename src dst) (no_entry src w) w
    end.

(** [a == b] on the results of [get_file_hash]. *)
Definition hash_eqb (a b : option string) : bool :=
  match a, b with
  | Some x, Some y => String.eqb x y
  | None, None => true
  | _, _ => false
  end.

(** Lines 70-72: the first entry, other than the temporary file, whose
    digest is the new one. *)
Fixpoint scan (temp : string) (new_hash : option string)
    (names : list string) : M world (option string) :=
  match names with
  | [] => ret None
  | existing_file :: rest =>
      let existing_path := Path.join directory existing_file in
      if negb (String.eqb existing_path temp) then
        h <- get_file_hash existing_path ;;
        if hash_eqb h new_hash then ret (Some existing_file)
        else scan temp new_hash rest
      else scan temp new_hash rest
  end.

(** Lines 51-55 *)
Definition derive_filename (url : string) (t : datetime) : string :=
  choose_filename (Path.basename (urlparse_path url)) t.

(** Lines 62-82: the temporary file, the scan and the promotion. *)
Definition store_image (url filename fpath tpath data : string)
  : M world bool :=
  open_wb tpath ;;;
  file_write tpath data ;;;
  new_hash <- get_file_hash tpath ;;
  names <- os_listdir ;;
  dup <- scan tpath new_hash names ;;
  match dup with
  | Some existing_file =>
      print ("✗ Skipped " ++ url ++ ": Duplicate image found as "
             ++ existing_file ++ ".") ;;;
      os_remove tpath ;;;
      ret false
  | None =>
      os_rename tpath fpath ;;;
      print ("✓ Successfully fetched: " ++ filename) ;;;
      print ("✓ Image saved to " ++ fpath) ;;;
      ret true
  end.

(** Lines 36-82: the body of the [try]. *)
Definition fetch_body (url : string) : M (frame * world) bool :=
  response <- lift (requests_get url) ;;
  raise_for_status url response ;;;
  let ctype := declared_type response in
  if negb (is_valid_image ctype) then
    lift (print ("✗ Error for " ++ url ++ ": Invalid content type ("
                 ++ ctype ++ "). Expected an image.")) ;;;
    ret false
  else
    t <- lift clock ;;
    let filename := derive_filename url t in
    lift os_makedirs ;;;
    let fpath := Path.join directory filename in
    assign_file_path fpath ;;;
    let tpath := fpath ++ ".tmp" in
    assign_temp_path tpath ;;;
    lift (store_image url filename fpath tpath (content response)).

(** Lines 84-101: the [except] clauses, in their order. *)
Definition fetch_handler (url : string) (e : exn) : M (frame * world) bool :=
  match class_of e with
  | HTTPError =>
      lift (print ("✗ Error for " ++ url ++ ": HTTP error - " ++ str_of e)) ;;;
      ret false
  | ConnectionError =>
      lift (print ("✗ Error for " ++ url
                   ++ ": Failed to connect to the server.")) ;;;
      ret false
  | Timeout =>
      lift (print ("✗ Error for " ++ url ++ ": Request timed out.")) ;;;
      ret false
  | RequestException =>
      lift (print ("✗ Error for " ++ url ++ ": Request error - "
                   ++ str_of e)) ;;;
      ret false
  | PermissionError =>
      fpath <- read_local "file_path" file_path ;;
      lift (print ("✗ Error for " ++ url
                   ++ ": Permission denied when saving to '" ++ fpath
                   ++ "'.")) ;;;
      ret false
  | _ =>
      lift (print ("✗ Error for " ++ url
                   ++ ": An unexpected error occurred - " ++ str_of e)) ;;;
      ret false
  end.

(** Lines 104-108: the removal of the temporary file, if it is there. *)
Definition cleanup (tpath : string) : M world unit :=
  there <- os_path_exists tpath ;;
  if there then try_except (os_remove tpath) (fun _ => ret tt)
  else ret tt.

(** Lines 102-108: the [finally] clause. *)
Definition fetch_finally : M (frame * world) unit :=
  tpath <- read_local "temp_path" temp_path ;;
  lift (cleanup tpath).

(** [fetch_and_save_image(url, directory)] *)
Definition fetch_and_save_image (url : string) : M world bool :=
  fun w =>
    match try_finally (try_except (fetch_body url) (fetch_handler url))
            fetch_finally (empty_frame, w) with
    | (r, s) => (r, snd s)
    end.

(** The final and the temporary path of a call (lines 59 and 62). *)
Definition final_path_of (url : string) (w : world) : string :=
  Path.join directory (derive_filename url (now w)).

Definition temp_path_of (url : string) (w : world) : string :=
  final_path_of url w ++ ".tmp".

(** A name that an entry of the directory can bear, the directory having a
    name of its own: it is not empty and no dot component, it has no slash,
    and the path to it has no NUL byte, no component longer than [NAME_MAX]
    and fewer than [PATH_MAX] bytes. *)
Definition nameable (n : string) : Prop :=
  directory <> EmptyString
  /\ n <> EmptyString /\ n <> "." /\ n <> ".."
  /\ Str.contains_char "/" n = false
  /\ Path.has_nul (Path.join directory n) = false
  /\ Path.too_long (Path.join directory n) = false.

(** The response with which a call gets as far as line 62: the request
    returns, its status is no error, its content type is allowed and
    [os.makedirs] goes through. *)
Definition reaches_store (url : string) (w : world) : option response :=
  match http w url with
  | Return r =>
      if is_http_error r || negb (is_valid_image (declared_type r))
      then None
      else match hd None (faults w) with
           | Some _ => None
           | None => Some r
           end
  | Raise _ => None
  end.

(** The world in which line 62 is then reached. *)
Definition at_store (url : string) (w : world) : world :=
  snd (os_makedirs (add_trace (Ev (SGet url) true) w)).

(** The line an [except] clause prints, [file_path] being bound. *)
Definition handler_line (url fpath : string) (e : exn) : string :=
  match class_of e with
  | HTTPError => "✗ Error for " ++ url ++ ": HTTP error - " ++ str_of e
  | ConnectionError =>
      "✗ Error for " ++ url ++ ": Failed to connect to the server."
  | Timeout => "✗ Error for " ++ url ++ ": Request timed out."
  | RequestException =>
      "✗ Error for " ++ url ++ ": Request error - " ++ str_of e
  | PermissionError =>
      "✗ Error for " ++ url ++ ": Permission denied when saving to '"
      ++ fpath ++ "'."
  | _ =>
      "✗ Error for " ++ url ++ ": An unexpected error occurred - "
      ++ str_of e
  end.

Definition report (url fpath : string) (e : exn) : M world bool :=
  print (handler_line url fpath e) ;;; ret false.

(** A call from line 62 on, the two paths being bound. *)
Definition late (url : string) (r : response) (w : world) : M world bool :=
  let filename := derive_filename url (now w) in
  let fpath := final_path_of url w in
  let tpath := temp_path_of url w in
  try_finally
    (try_except (store_image url filename fpath tpath (content r))
       (report url fpath))
    (cleanup tpath).

(** The calls made before line 62. *)
Definition early_call (url : string) (e : event) : Prop :=
  exists ok, e = Ev (SGet url) ok \/ e = Ev (SMakedirs directory) ok.

(** How a world may change between two points of a run: the network and
    the clock stay, the fault schedule is only used up, the calls that are
    logged satisfy [P], and the paths of [keep] name what they named. *)
Definition evolves (P : event -> Prop) (keep : string -> Prop)
    (w w' : world) : Prop :=
  http w' = http w /\ now w' = now w
  /\ (exists k, faults w' = skipn k (faults w))
  /\ (exists evs, trace w' = (trace w ++ evs)%list /\ Forall P evs)
  /\ (forall path, keep path -> stat path w' = stat path w).

(** The calls a run for the paths [tpath] and [fpath] may make: it opens,
    writes and removes [tpath] only, and renames [tpath] to [fpath] only. *)
Definition on_temp (tpath fpath : string) (e : event) : Prop :=
  match e with
  | Ev (SOpenW p) _ => p = tpath
  | Ev (SWrite p _) _ => p = tpath
  | Ev (SRemove p) _ => p = tpath
  | Ev (SRename s d) _ => s = tpath /\ d = fpath
  | _ => True
  end.

(** The same without any renaming. *)
Definition quiet (tpath : string) (e : event) : Prop :=
  match e with
  | Ev (SOpenW p) _ => p = tpath
  | Ev (SWrite p _) _ => p = tpath
  | Ev (SRemove p) _ => p = tpath
  | Ev (SRename _ _) _ => False
  | _ => True
  end.

(** Lines 62-72: the temporary file is written and the directory scanned. *)
Definition stage (tpath data : string) : M world (option string) :=
  open_wb tpath ;;;
  file_write tpath data ;;;
  new_hash <- get_file_hash tpath ;;
  names <- os_listdir ;;
  scan tpath new_hash names.

(** Lines 73-82: what follows the scan. *)
Definition settle (url filename fpath tpath : string) (dup : option string)
  : M world bool :=
  match dup with
  | Some existing_file =>
      print ("✗ Skipped " ++ url ++ ": Duplicate image found as "
             ++ existing_file ++ ".") ;;;
      os_remove tpath ;;;
      ret false
  | None =>
      os_rename tpath fpath ;;;
      print ("✓ Successfully fetched: " ++ filename) ;;;
      print ("✓ Image saved to " ++ fpath) ;;;
      ret true
  end.

(** No two files of the listing have the same digest. *)
Definition hash_unique (l : listing) : Prop :=
  forall n1 n2 c1 c2,
    lookup n1 l = Some (File c1) -> lookup n2 l = Some (File c2) ->
    sha256 c1 = sha256 c2 -> n1 = n2.

(** No entry of the directory, other than [tpath], is a file whose digest
    is that of [data]. *)
Definition no_match (tpath data : string) (w : world) : Prop :=
  forall l n c,
    dir w = Some l -> In n (map fst l) -> Path.join directory n <> tpath ->
    stat (Path.join directory n) w = Some (File c) ->
    sha256 c <> sha256 data.

End Calls.

(** ** The batch driver *)

(** Lines 117-122: the lines of standard input up to the first blank one;
    [input()] raises [EOFError] when the input ends before that. *)
Fixpoint read_urls {S} (stdin urls : list string) : M S (list string) :=
  match stdin with
  | [] => raise (mkExn EOFError "EOF when reading a line")
  | line :: rest =>
      let url := Str.strip line in
      if String.eqb url EmptyString then ret urls
      else read_urls rest (urls ++ [url])
  end.

(** [executor.map(fetch_and_save_image, urls)], the calls taken one after
    the other: each call ends, by a value or by an exception, before the
    next one starts, and the outcomes are kept in the order of the URLs. *)
Fixpoint executor_map (urls : list string) : M world (list (outcome bool)) :=
  match urls with
  | [] => ret []
  | url :: rest =>
      fun w =>
        match fetch_and_save_image "Fetched_Images" url w with
        | (r, w') =>
            match executor_map rest w' with
            | (Return rs, w'') => (Return (r :: rs), w'')
            | (Raise e, w'') => (Raise e, w'')
            end
        end
  end.

(** [sum(1 for result in results if result)]: taking the result of a call
    that raised raises its exception again. *)
Fixpoint count_successes {St} (results : list (outcome bool)) : M St nat :=
  match results with
  | [] => ret 0
  | Return b :: rest =>
      n <- count_successes rest ;; ret (if b then S n else n)
  | Raise e :: _ => raise e
  end.

(** Lines 132-137 *)
Definition summarize (results : list (outcome bool)) (total : nat)
  : M world unit :=
  successes <- count_successes results ;;
  if (0 <? successes)%nat then
    print (newline ++ "Connection strengthened. Community enriched. ("
           ++ str_of_nat successes ++ "/" ++ str_of_nat total
           ++ " images fetched successfully)")
  else
    print (newline ++ "Connection attempt failed. Please try again.").

(** Lines 124-137: the batch, once the URLs are read. *)
Definition run_batch (urls : list string) : M world unit :=
  match urls with
  | [] => print "✗ Error: No URLs provided."
  | _ =>
      results <- executor_map urls ;;
      summarize results (length urls)
  end.

(** Lines 141-142 *)
Definition main_handler (e : exn) : M world unit :=
  print ("✗ An unexpected error occurred: " ++ str_of e).

(** [main()], reading the lines [stdin]. *)
Definition main (stdin : list string) : M world unit :=
  print "Welcome to the Ubuntu Image Fetcher" ;;;
  print ("A tool for mindfully collecting images from the web" ++ newline) ;;;
  try_except
    (print "Enter image URLs (one per line, press Enter twice to finish):" ;;;
     urls <- read_urls stdin [] ;;
     run_batch urls)
    main_handler.

(** A computation all of whose runs relate the world before to the world
    after. *)
Definition preserves {A} (R : world -> world -> Prop) (m : M world A) : Prop :=
  forall w, R w (snd (m w)).

(** The entries of the target directory, none when it does not exist. *)
Definition entries (w : world) : listing :=
  match dir w with
  | Some l => l
  | None => []
  end.

(** The names of a listing are relative: none starts with a slash. *)
Definition relative_names (l : listing) : Prop :=
  forall n x, lookup n l = Some x -> Str.starts_with_char "/" n = false.

(** Every entry of a listing is a regular file. *)
Definition all_files (l : listing) : Prop :=
  forall n x, lookup n l = Some x -> exists c, x = File c.

(** The number of calls that returned [True]. *)
Definition successes_of (bs : list bool) : nat :=
  length (filter (fun b => b) bs).

(** The two summary lines of lines 135 and 137. *)
Definition enriched_line (successes total : nat) : string :=
  newline ++ "Connection strengthened. Community enriched. ("
  ++ str_of_nat successes ++ "/" ++ str_of_nat total
  ++ " images fetched successfully)".

Definition failed_line : string :=
  newline ++ "Connection attempt failed. Please try again.".

(** ** Sample worlds *)

(** A stand-in for the digest in the examples: the content itself, which
    no two contents share. *)
Definition sample_digest (data : string) : string := data.

(** The path of the sample URLs, all on one host. *)
Definition sample_path (url : string) : string :=
  match Str.strip_prefix "http://site" url with
  | Some path => path
  | None => url
  end.

Definition sample_http (url : string) : outcome response :=
  if String.eqb url "http://site/a.png"
  then Return (mkResponse 200 (Some "image/png") "PNGDATA")
  else if String.eqb url "http://site/page"
  then Return (mkResponse 200 (Some "text/html") "<html>")
  else if String.eqb url "http://site/bare"
  then Return (mkResponse 200 None "PNGDATA")
  else if String.eqb url "http://site/download"
  then Return (mkResponse 200 (Some "image/jpeg") "JPEGDATA")
  else Raise (mkExn ConnectionError "connection refused").

Definition sample_clock : datetime := mkDatetime 2024 3 9 7 5 59.

(** No directory yet, no fault to come. *)
Definition sample_fresh : world :=
  mkWorld sample_http sample_clock None [] [] [].

(** A directory that holds the image of [a.png] under another name. *)
Definition sample_populated : world :=
  mkWorld sample_http sample_clock
    (Some [("b.png", File "PNGDATA")]) [] [] [].

(** A directory with one other image. *)
Definition sample_other : world :=
  mkWorld sample_http sample_clock
    (Some [("c.png", File "OTHER")]) [] [] [].

(** A directory that may not be searched: the next call on it is
    refused. *)
Definition sample_locked : world :=
  mkWorld sample_http sample_clock
    (Some [("b.png", File "PNGDATA")]) [Some Denied] [] [].

(** A directory that has become read-only, with a temporary file left by
    an interrupted run: the file can be rewritten, but no entry can be
    removed or renamed. *)
Definition sample_read_only : world :=
  mkWorld sample_http sample_clock
    (Some [("a.png.tmp", File "stale")])
    [None; None; None; None; None; Some Denied; Some Denied] [] [].

(** The same with the image of [a.png] already stored as [b.png]. *)
Definition sample_read_only_dup : world :=
  mkWorld sample_http sample_clock
    (Some [("a.png.tmp", File "stale"); ("b.png", File "PNGDATA")])
    [None; None; None; None; None; None; Some Denied; Some Denied] [] [].


(** ** More of the log, more sample worlds *)

(** The URLs that a stretch of the log requests, in the order of the
    requests. *)
Fixpoint requests_of (evs : list event) : list string :=
  match evs with
  | [] => []
  | Ev (SGet url) _ :: rest => url :: requests_of rest
  | _ :: rest => requests_of rest
  end.

(** A call of the log that is no request. *)
Definition no_request (e : event) : Prop :=
  match e with
  | Ev (SGet _) _ => False
  | _ => True
  end.

(** A line of standard input that ends the reading of the URLs. *)
Definition blank (line : string) : Prop := Str.strip line = EmptyString.

(** Some white space as it is typed: the tabulation, and in UTF-8 the
    no-break space U+00A0 and the ideographic space U+3000; and a letter,
    U+0120, whose second byte is that of the no-break space. *)
Definition tab : string := String (ascii_of_nat 9) EmptyString.
Definition nbsp : string :=
  String (ascii_of_nat 194) (String (ascii_of_nat 160) EmptyString).
Definition ideographic_space : string :=
  String (ascii_of_nat 227)
    (String (ascii_of_nat 128) (String (ascii_of_nat 128) EmptyString)).
Definition g_dot : string :=
  String (ascii_of_nat 196) (String (ascii_of_nat 160) EmptyString).

(** The three lines [main] prints before it reads. *)
Definition greeted (w : world) : world :=
  add_stdout "Enter image URLs (one per line, press Enter twice to finish):"
    (add_stdout ("A tool for mindfully collecting images from the web"
                 ++ newline)
       (add_stdout "Welcome to the Ubuntu Image Fetcher" w)).

(** A directory with a subdirectory in it. *)
Definition sample_with_subdir : world :=
  mkWorld sample_http sample_clock
    (Some [("c.png", File "OTHER"); ("thumbs", Dir)]) [] [] [].

(** Two URLs with the same base name and different images. *)
Definition sample_mirror_http (url : string) : outcome response :=
  if String.eqb url "http://site/x/a.png"
  then Return (mkResponse 200 (Some "image/png") "ANOTHER")
  else sample_http url.

Definition sample_mirror : world :=
  mkWorld sample_mirror_http sample_clock
    (Some [("c.png", File "OTHER")]) [] [] [].

(** A server that answers with an error status. *)
Definition sample_error_http (url : string) : outcome response :=
  Return (mkResponse 404 (Some "image/png") EmptyString).

Definition sample_error : world :=
  mkWorld sample_error_http sample_clock
    (Some [("c.png", File "OTHER")]) [] [] [].

(** * Properties *)

Section Properties.


(** ** Strings and path names *)

Lemma eqb_false_neq (a b : string) : String.eqb a b = false <-> a <> b.
Proof. apply String.eqb_neq. Qed.

Lemma strip_prefix_app (p s : string) : Str.strip_prefix p (p ++ s) = Some s.
Proof.
  induction p as [|a p IH]; simpl; [reflexivity|].
  now rewrite Ascii.eqb_refl.
Qed.

Lemma strip_prefix_inv (p s r : string) :
  Str.strip_prefix p s = Some r -> s = p ++ r.
Proof.
  revert s; induction p as [|a p IH]; simpl; intros s H.
  - now inversion H.
  - destruct s as [|b s]; [discriminate|].
    destruct (Ascii.eqb a b) eqn:E; [|discriminate].
    apply Ascii.eqb_eq in E; subst b. now rewrite (IH s H).
Qed.

Lemma append_assoc (a b c : string) : (a ++ b) ++ c = a ++ b ++ c.
Proof. induction a as [|x a IH]; simpl; [reflexivity|now rewrite IH]. Qed.

Lemma contains_here (sub s : string) : Str.contains sub (sub ++ s) = true.
Proof.
  destruct sub as [|a sub]; destruct s as [|b s]; simpl;
    try reflexivity; rewrite ?Ascii.eqb_refl, ?strip_prefix_app; reflexivity.
Qed.

Lemma contains_app (sub a s : string) :
  Str.contains sub s = true -> Str.contains sub (a ++ s) = true.
Proof.
  intros H; induction a as [|c a IH]; simpl; [exact H|].
  destruct (Str.strip_prefix sub (String c (a ++ s))); [reflexivity|].
  exact IH.
Qed.

Lemma contains_middle (sub a b : string) :
  Str.contains sub (a ++ sub ++ b) = true.
Proof. apply contains_app, contains_here. Qed.

(** ** The content-type check *)

(** C9: [is_valid_image] accepts a header value exactly when it is, as a
    string, one of the four allow-listed media types; a value with
    parameters, in another letter case or with surrounding blanks is
    rejected. *)
Theorem is_valid_image_exact :
  (forall ct : string,
      is_valid_image ct = true <->
      ct = "image/jpeg" \/ ct = "image/png" \/ ct = "image/gif"
      \/ ct = "image/bmp")
  /\ is_valid_image "image/jpeg; charset=utf-8" = false
  /\ is_valid_image "IMAGE/JPEG" = false
  /\ is_valid_image "Image/Png" = false
  /\ is_valid_image " image/png" = false
  /\ is_valid_image "image/gif " = false
  /\ is_valid_image EmptyString = false.
Proof.
  clear urlparse_path sha256.
  split; [|repeat split; reflexivity].
  intros ct. unfold is_valid_image, valid_types. simpl.
  rewrite !orb_true_iff, !String.eqb_eq.
  intuition discriminate.
Qed.

(** ** The file name *)

Lemma lower_ascii_dot (c : ascii) :
  Ascii.eqb (Str.lower_ascii c) "." = Ascii.eqb c ".".
Proof. destruct c as [[] [] [] [] [] [] [] []]; reflexivity. Qed.

Lemma lower_contains_dot (s : string) :
  Str.contains_char "." (Str.lower s) = Str.contains_char "." s.
Proof.
  induction s as [|c s IH]; simpl; [reflexivity|].
  now rewrite lower_ascii_dot, IH.
Qed.

Lemma extension_lower (s : string) :
  extension (Str.lower s) = Str.lower (extension s).
Proof.
  induction s as [|c s IH]; simpl; [reflexivity|].
  rewrite lower_contains_dot, lower_ascii_dot.
  destruct (Str.contains_char "." s); [exact IH|].
  destruct (Ascii.eqb c "."); reflexivity.
Qed.

Lemma extension_no_dot (s : string) :
  Str.contains_char "." s = false -> extension s = EmptyString.
Proof.
  induction s as [|c s IH]; simpl; [reflexivity|].
  intros H. apply orb_false_iff in H as [Hc Hs].
  rewrite Hs, Hc. reflexivity.
Qed.

(** A suffix made of a dot and dot-free characters ends a name exactly
    when it is the extension of the name. *)
Lemma endswith_extension (s t : string) :
  Str.contains_char "." t = false ->
  Str.endswith s (String "." t) = true <-> extension s = String "." t.
Proof.
  intros Ht. induction s as [|c s IH].
  - simpl. split; discriminate.
  - cbn [Str.endswith extension].
    destruct (Str.contains_char "." s) eqn:Hs.
    + assert (Hne : String.eqb (String c s) (String "." t) = false).
      { apply String.eqb_neq. intros E. inversion E; subst. congruence. }
      rewrite Hne. exact IH.
    + assert (Hr : Str.endswith s (String "." t) = false).
      { apply not_true_is_false. intros E.
        apply IH in E. rewrite (extension_no_dot s Hs) in E. discriminate. }
      rewrite Hr, orb_false_r.
      destruct (Ascii.eqb c ".") eqn:Hc.
      * apply Ascii.eqb_eq in Hc; subst c. apply String.eqb_eq.
      * split; [|discriminate].
        intros E. apply String.eqb_eq in E. inversion E; subst.
        now rewrite Ascii.eqb_refl in Hc.
Qed.

Lemma endswith_any_extension (s : string) :
  Str.endswith_any s image_suffixes = true <-> In (extension s) image_suffixes.
Proof.
  clear urlparse_path sha256.
  unfold Str.endswith_any, image_suffixes. simpl.
  rewrite !orb_true_iff, !endswith_extension by reflexivity.
  intuition congruence.
Qed.

(** The test of line 53, in the words of the specification. *)
Lemma keeps_name_spec (name : string) :
  keeps_name name = true <->
  name <> EmptyString /\ In (Str.lower (extension name)) image_suffixes.
Proof.
  unfold keeps_name.
  rewrite andb_true_iff, negb_true_iff, String.eqb_neq,
    endswith_any_extension, extension_lower.
  reflexivity.
Qed.

Lemma lower_app (a b : string) :
  Str.lower (a ++ b) = Str.lower a ++ Str.lower b.
Proof. induction a as [|c a IH]; simpl; [reflexivity|now rewrite IH]. Qed.

Lemma endswith_refl (s : string) : Str.endswith s s = true.
Proof. destruct s; cbn [Str.endswith]; now rewrite String.eqb_refl. Qed.

Lemma endswith_app (a s : string) : Str.endswith (a ++ s) s = true.
Proof.
  induction a as [|c a IH]; cbn [append Str.endswith].
  - apply endswith_refl.
  - rewrite IH. apply orb_true_r.
Qed.

Lemma extension_tmp (a : string) : extension (a ++ ".tmp") = ".tmp".
Proof.
  induction a as [|c a IH]; [reflexivity|].
  cbn [append extension]. rewrite IH.
  assert (Hc : Str.contains_char "." (a ++ ".tmp") = true).
  { clear. induction a as [|c a IH]; [reflexivity|].
    cbn [append Str.contains_char]. rewrite IH. apply orb_true_r. }
  now rewrite Hc.
Qed.

(** Whatever the URL and the clock, the name that is derived passes the
    test of line 53. *)
Lemma derived_name_kept (u : string) (d : datetime) :
  keeps_name (choose_filename (Path.basename (urlparse_path u)) d) = true.
Proof.
  unfold choose_filename.
  destruct (keeps_name (Path.basename (urlparse_path u))) eqn:K;
    [exact K|].
  unfold keeps_name. apply andb_true_iff. split; [reflexivity|].
  change ("image_" ++ strftime d ++ ".jpg")
    with (("image_" ++ strftime d) ++ ".jpg").
  unfold Str.endswith_any, image_suffixes.
  cbn [existsb]. rewrite lower_app.
  change (Str.lower ".jpg") with ".jpg".
  now rewrite endswith_app.
Qed.

(** So no derived name is the temporary name of a fetch. *)
Lemma kept_name_not_tmp (name a : string) :
  keeps_name name = true -> name <> a ++ ".tmp".
Proof.
  clear. intros K ->. apply keeps_name_spec in K as [_ Hin].
  rewrite extension_tmp in Hin. simpl in Hin.
  repeat (destruct Hin as [Hin|Hin]; [discriminate|]). exact Hin.
Qed.

















(** ** Listings *)

Lemma lookup_set_same (n : string) (x : node) (l : listing) :
  lookup n (set_entry n x l) = Some x.
Proof.
  induction l as [|[m y] l IH]; simpl.
  - now rewrite String.eqb_refl.
  - destruct (String.eqb m n) eqn:E; simpl; rewrite E; [reflexivity|exact IH].
Qed.

Lemma lookup_set_other (n m : string) (x : node) (l : listing) :
  m <> n -> lookup m (set_entry n x l) = lookup m l.
Proof.
  intros Hne. induction l as [|[k y] l IH]; simpl.
  - destruct (String.eqb n m) eqn:E; [|reflexivity].
    apply String.eqb_eq in E. congruence.
  - destruct (String.eqb k n) eqn:E; simpl.
    + apply String.eqb_eq in E; subst k.
      destruct (String.eqb n m) eqn:E'; [|reflexivity].
      apply String.eqb_eq in E'. congruence.
    + now rewrite IH.
Qed.

Lemma lookup_remove_same (n : string) (l : listing) :
  lookup n (remove_entry n l) = None.
Proof.
  induction l as [|[m y] l IH]; simpl; [reflexivity|].
  destruct (String.eqb m n) eqn:E; simpl; [exact IH|now rewrite E].
Qed.

Lemma lookup_remove_other (n m : string) (l : listing) :
  m <> n -> lookup m (remove_entry n l) = lookup m l.
Proof.
  intros Hne. induction l as [|[k y] l IH]; simpl; [reflexivity|].
  destruct (String.eqb k n) eqn:E; simpl.
  - apply String.eqb_eq in E; subst k.
    destruct (String.eqb n m) eqn:E'; [|exact IH].
    apply String.eqb_eq in E'. congruence.
  - now rewrite IH.
Qed.

Lemma lookup_in_names (n : string) (l : listing) :
  In n (map fst l) <-> lookup n l <> None.
Proof.
  clear urlparse_path sha256.
  induction l as [|[m y] l IH]; simpl.
  - split; [tauto|congruence].
  - destruct (String.eqb m n) eqn:E.
    + apply String.eqb_eq in E. split; [discriminate|now left].
    + apply String.eqb_neq in E. rewrite <- IH. tauto.
Qed.

Lemma remove_absent (n : string) (l : listing) :
  lookup n l = None -> remove_entry n l = l.
Proof.
  induction l as [|[m y] l IH]; simpl; [reflexivity|].
  destruct (String.eqb m n); [discriminate|].
  intros H. now rewrite IH.
Qed.

Lemma remove_set_same (n : string) (x : node) (l : listing) :
  remove_entry n (set_entry n x l) = remove_entry n l.
Proof.
  induction l as [|[m y] l IH]; simpl.
  - now rewrite String.eqb_refl.
  - destruct (String.eqb m n) eqn:E; simpl; rewrite E; [reflexivity|].
    now rewrite IH.
Qed.

Lemma dir_pop (w : world) : dir (pop w) = dir w.
Proof. unfold pop. now destruct (faults w). Qed.

Lemma http_pop (w : world) : http (pop w) = http w.
Proof. unfold pop. now destruct (faults w). Qed.

Lemma now_pop (w : world) : now (pop w) = now w.
Proof. unfold pop. now destruct (faults w). Qed.

Lemma trace_pop (w : world) : trace (pop w) = trace w.
Proof. unfold pop. now destruct (faults w). Qed.

Lemma stdout_pop (w : world) : stdout (pop w) = stdout w.
Proof. unfold pop. now destruct (faults w). Qed.

(** ** Paths of the target directory *)

Section Directory.

Variable directory : string.


Lemma entry_of_prefix (n : string) :
  entry_of directory (Path.dirprefix directory ++ n) = Some n.
Proof. apply strip_prefix_app. Qed.

Lemma entry_of_inv (path n : string) :
  entry_of directory path = Some n -> path = Path.dirprefix directory ++ n.
Proof. apply strip_prefix_inv. Qed.

Lemma entry_of_inj (p q n : string) :
  entry_of directory p = Some n -> entry_of directory q = Some n -> p = q.
Proof.
  intros Hp Hq. apply entry_of_inv in Hp, Hq. congruence.
Qed.

Lemma join_relative (n : string) :
  Str.starts_with_char "/" n = false ->
  Path.join directory n = Path.dirprefix directory ++ n.
Proof. intros H. unfold Path.join. now rewrite H. Qed.

Lemma append_inj_l (a b c : string) : a ++ b = a ++ c -> b = c.
Proof.
  induction a as [|x a IH]; simpl; intros H; [exact H|].
  inversion H. auto.
Qed.

Lemma append_nonempty_neq (a b : string) : b <> EmptyString -> a ++ b <> a.
Proof.
  intros Hb. induction a as [|x a IH]; simpl.
  - exact Hb.
  - intros E. inversion E. auto.
Qed.

Lemma basename_no_slash (p : string) :
  Str.contains_char "/" (Path.basename p) = false.
Proof.
  induction p as [|c p IH]; simpl; [reflexivity|].
  destruct (Str.contains_char "/" p) eqn:E; [exact IH|].
  destruct (Ascii.eqb c "/") eqn:Ec; [exact E|].
  simpl. now rewrite Ec, E.
Qed.

Lemma no_slash_relative (n : string) :
  Str.contains_char "/" n = false -> Str.starts_with_char "/" n = false.
Proof.
  destruct n as [|c n]; simpl; [reflexivity|].
  intros H. now apply orb_false_iff in H.
Qed.

Lemma contains_char_app (c : ascii) (a b : string) :
  Str.contains_char c (a ++ b) = Str.contains_char c a || Str.contains_char c b.
Proof.
  induction a as [|x a IH]; simpl; [reflexivity|].
  now rewrite IH, orb_assoc.
Qed.

Lemma digit_not_slash (d : N) :
  (d < 10)%N -> Ascii.eqb (digit d) "/" = false.
Proof.
  intros H.
  assert (E : (d = 0 \/ d = 1 \/ d = 2 \/ d = 3 \/ d = 4 \/ d = 5 \/ d = 6
               \/ d = 7 \/ d = 8 \/ d = 9)%N) by lia.
  repeat (destruct E as [E|E]; [subst d; reflexivity|]).
  subst d; reflexivity.
Qed.

(** The name chosen at lines 52-55 is relative: it does not start with a
    slash. *)
Lemma derive_filename_relative (url : string) (t : datetime) :
  Str.starts_with_char "/" (derive_filename url t) = false.
Proof.
  unfold derive_filename, choose_filename.
  destruct (keeps_name _); [|reflexivity].
  apply no_slash_relative, basename_no_slash.
Qed.

Lemma final_path_entry (url : string) (w : world) :
  final_path_of directory url w
  = Path.dirprefix directory ++ derive_filename url (now w).
Proof.
  unfold final_path_of. apply join_relative, derive_filename_relative.
Qed.

Lemma temp_path_entry (url : string) (w : world) :
  temp_path_of directory url w
  = Path.dirprefix directory
    ++ (derive_filename url (now w) ++ ".tmp").
Proof.
  unfold temp_path_of. now rewrite final_path_entry, append_assoc.
Qed.

Lemma temp_path_neq_final (url : string) (w : world) :
  temp_path_of directory url w
  <> final_path_of directory url w.
Proof. apply append_nonempty_neq. discriminate. Qed.

(** ** The directory under [put] and [drop] *)

Lemma stat_put_same (n : string) (x : node) (w : world) (l : listing) :
  dir w = Some l ->
  stat directory (Path.dirprefix directory ++ n) (put directory (Path.dirprefix directory ++ n) x w)
  = Some x.
Proof.
  intros Hd. unfold stat, put.
  rewrite Hd, entry_of_prefix. simpl. apply lookup_set_same.
Qed.

Lemma stat_put_other (p q : string) (x : node) (w : world) :
  q <> p -> stat directory q (put directory p x w) = stat directory q w.
Proof.
  intros Hne. unfold stat, put.
  destruct (dir w) as [l|] eqn:Hd; [|now rewrite Hd].
  destruct (entry_of directory p) as [n|] eqn:Hp; [|now rewrite Hd].
  simpl. destruct (entry_of directory q) as [m|] eqn:Hq; [|reflexivity].
  apply lookup_set_other. intros E; subst m.
  apply Hne. eapply entry_of_inj; eauto.
Qed.

Lemma stat_drop_same (p : string) (w : world) :
  stat directory p (drop directory p w) = None.
Proof.
  unfold stat, drop.
  destruct (dir w) as [l|] eqn:Hd; [|now rewrite Hd].
  destruct (entry_of directory p) as [n|] eqn:Hp; [|now rewrite Hd].
  simpl. apply lookup_remove_same.
Qed.

Lemma stat_drop_other (p q : string) (w : world) :
  q <> p -> stat directory q (drop directory p w) = stat directory q w.
Proof.
  intros Hne. unfold stat, drop.
  destruct (dir w) as [l|] eqn:Hd; [|now rewrite Hd].
  destruct (entry_of directory p) as [n|] eqn:Hp; [|now rewrite Hd].
  simpl. destruct (entry_of directory q) as [m|] eqn:Hq; [|reflexivity].
  apply lookup_remove_other. intros E; subst m.
  apply Hne. eapply entry_of_inj; eauto.
Qed.

(** ** How the calls change the world *)

Section Evolution.

Variable P : event -> Prop.
Variable keep : string -> Prop.

Lemma evolves_refl (w : world) : evolves directory P keep w w.
Proof.
  repeat split; auto.
  - now exists 0.
  - exists []. split; [now rewrite app_nil_r|constructor].
Qed.

Lemma evolves_trans (w1 w2 w3 : world) :
  evolves directory P keep w1 w2 -> evolves directory P keep w2 w3 ->
  evolves directory P keep w1 w3.
Proof.
  intros (H1 & N1 & [k1 F1] & [e1 [T1 Q1]] & K1)
         (H2 & N2 & [k2 F2] & [e2 [T2 Q2]] & K2).
  repeat split; try congruence.
  - exists (k2 + k1). now rewrite F2, F1, skipn_skipn.
  - exists (e1 ++ e2)%list. split.
    + now rewrite T2, T1, app_assoc.
    + apply Forall_app; now split.
  - intros path Hk. now rewrite K2, K1.
Qed.

Lemma evolves_trace (ev : event) (w : world) :
  P ev -> evolves directory P keep w (add_trace ev w).
Proof.
  intros Hev. repeat split; auto.
  - now exists 0.
  - exists [ev]. split; [reflexivity|now constructor].
Qed.

Lemma evolves_stdout (line : string) (w : world) :
  evolves directory P keep w (add_stdout line w).
Proof.
  repeat split; auto.
  - now exists 0.
  - exists []. split; [simpl; now rewrite app_nil_r|constructor].
Qed.

Lemma evolves_pop (w : world) : evolves directory P keep w (pop w).
Proof.
  unfold pop. destruct (faults w) as [|f fs] eqn:E; [apply evolves_refl|].
  repeat split; auto.
  - exists 1. simpl. now rewrite E.
  - exists []. split; [simpl; now rewrite app_nil_r|constructor].
Qed.

Lemma evolves_set_dir (d : option listing) (w : world) :
  (forall path, keep path -> stat directory path (set_dir d w)
                             = stat directory path w) ->
  evolves directory P keep w (set_dir d w).
Proof.
  intros H. repeat split; auto.
  - now exists 0.
  - exists []. split; [simpl; now rewrite app_nil_r|constructor].
Qed.

Lemma evolves_put (p : string) (x : node) (w : world) :
  ~ keep p -> evolves directory P keep w (put directory p x w).
Proof.
  intros Hp.
  assert (K : forall path, keep path ->
                stat directory path (put directory p x w)
                = stat directory path w).
  { intros path Hk. apply stat_put_other. intros E; subst. auto. }
  revert K. unfold put.
  destruct (dir w); [|intros; apply evolves_refl].
  destruct (entry_of directory p); [|intros; apply evolves_refl].
  apply evolves_set_dir.
Qed.

Lemma evolves_drop (p : string) (w : world) :
  ~ keep p -> evolves directory P keep w (drop directory p w).
Proof.
  intros Hp.
  assert (K : forall path, keep path ->
                stat directory path (drop directory p w)
                = stat directory path w).
  { intros path Hk. apply stat_drop_other. intros E; subst. auto. }
  revert K. unfold drop.
  destruct (dir w); [|intros; apply evolves_refl].
  destruct (entry_of directory p); [|intros; apply evolves_refl].
  apply evolves_set_dir.
Qed.

Lemma evolves_mkdir (w : world) :
  dir w = None -> evolves directory P keep w (set_dir (Some []) w).
Proof.
  intros Hd. apply evolves_set_dir. intros path _.
  unfold stat. simpl. rewrite Hd. now destruct (entry_of directory path).
Qed.

Local Abbreviation R := (evolves directory P keep).

Lemma preserves_ret {A} (a : A) : preserves R (ret a).
Proof. intros w. apply evolves_refl. Qed.

Lemma preserves_raise {A} (e : exn) : preserves R (@raise world A e).
Proof. intros w. apply evolves_refl. Qed.

Lemma preserves_bind {A B} (m : M world A) (k : A -> M world B) :
  preserves R m -> (forall a, preserves R (k a)) -> preserves R (bind m k).
Proof.
  intros Hm Hk w. unfold bind. specialize (Hm w).
  destruct (m w) as [[a|e] w1]; simpl in *; [|exact Hm].
  eapply evolves_trans; [exact Hm|apply Hk].
Qed.

Lemma preserves_try_except {A} (m : M world A) (h : exn -> M world A) :
  preserves R m -> (forall e, preserves R (h e)) ->
  preserves R (try_except m h).
Proof.
  intros Hm Hh w. unfold try_except. specialize (Hm w).
  destruct (m w) as [[a|e] w1]; simpl in *; [exact Hm|].
  eapply evolves_trans; [exact Hm|apply Hh].
Qed.

Lemma preserves_try_finally {A} (m : M world A) (f : M world unit) :
  preserves R m -> preserves R f -> preserves R (try_finally m f).
Proof.
  intros Hm Hf w. unfold try_finally. specialize (Hm w).
  destruct (m w) as [r w1]. specialize (Hf w1).
  destruct (f w1) as [[u|e] w2]; simpl in *;
    eapply evolves_trans; eauto.
Qed.

Lemma preserves_print (line : string) : preserves R (print line).
Proof. intros w. apply evolves_stdout. Qed.

Lemma preserves_refuse {A} (c : syscall) (e : exn) :
  P (Ev c false) -> preserves R (@refuse A c e).
Proof. intros Hc w. now apply evolves_trace. Qed.

Lemma preserves_attempt {A} (c : syscall) (run : M world A) :
  (forall ok, P (Ev c ok)) -> preserves R run -> preserves R (attempt c run).
Proof.
  intros Hc Hrun w. unfold attempt, next_fault, bind, log, raise.
  destruct (hd None (faults w)) as [x|]; simpl.
  - eapply evolves_trans; [apply evolves_pop|now apply evolves_trace].
  - eapply evolves_trans; [apply evolves_pop|].
    eapply evolves_trans; [apply evolves_trace, Hc|apply Hrun].
Qed.

Lemma preserves_fail_with {A} (c : syscall) (e : exn) :
  P (Ev c false) -> preserves R (@fail_with A c e).
Proof.
  intros Hc w. unfold fail_with, next_fault, bind, log, raise. simpl.
  eapply evolves_trans; [apply evolves_pop|now apply evolves_trace].
Qed.

Lemma preserves_requests_get (url : string) :
  (forall ok, P (Ev (SGet url) ok)) -> preserves R (requests_get url).
Proof.
  intros Hc w. unfold requests_get.
  destruct (http w url); now apply evolves_trace.
Qed.

Lemma preserves_makedirs :
  (forall ok, P (Ev (SMakedirs directory) ok)) ->
  preserves R (os_makedirs directory).
Proof.
  intros Hc. apply preserves_attempt; [exact Hc|].
  intros w. destruct (dir w) eqn:Hd; simpl;
    [apply evolves_refl|now apply evolves_mkdir].
Qed.

Lemma preserves_open_wb (p : string) :
  (forall ok, P (Ev (SOpenW p) ok)) -> ~ keep p ->
  preserves R (open_wb directory p).
Proof.
  intros Hc Hk w. unfold open_wb.
  assert (Ha : preserves R
            (attempt (SOpenW p)
               (fun w' => (Return tt, put directory p (File EmptyString) w')))).
  { apply preserves_attempt; [exact Hc|]. intros w'. now apply evolves_put. }
  assert (Hr : forall e, preserves R (@refuse unit (SOpenW p) e)).
  { intros e. now apply preserves_refuse. }
  destruct (dir w) as [l|]; [|apply Hr].
  destruct (entry_of directory p) as [n|]; [|apply Hr].
  destruct (lookup n l) as [[c|]|]; [apply Ha|apply Hr|].
  destruct (path_error directory p w); [apply Hr|apply Ha].
Qed.

Lemma preserves_file_write (p data : string) :
  (forall ok, P (Ev (SWrite p data) ok)) -> ~ keep p ->
  preserves R (file_write directory p data).
Proof.
  intros Hc Hk. apply preserves_attempt; [exact Hc|].
  intros w. now apply evolves_put.
Qed.

Lemma preserves_read_file (p : string) :
  (forall ok, P (Ev (SOpenR p) ok)) -> preserves R (read_file directory p).
Proof.
  intros Hc w. unfold read_file.
  destruct (stat directory p w) as [[c|]|].
  - apply preserves_attempt; [exact Hc|apply preserves_ret].
  - now apply preserves_refuse.
  - destruct (Path.has_nul p); [now apply preserves_refuse|].
    now apply preserves_fail_with.
Qed.

Lemma preserves_get_file_hash (p : string) :
  (forall ok, P (Ev (SOpenR p) ok)) ->
  preserves R (get_file_hash directory p).
Proof.
  intros Hc. apply preserves_try_except.
  - apply preserves_bind; [now apply preserves_read_file|].
    intros c. apply preserves_ret.
  - intros e. destruct (exn_class_eqb _ _);
      [apply preserves_ret|apply preserves_raise].
Qed.

Lemma preserves_listdir :
  (forall ok, P (Ev (SListdir directory) ok)) ->
  preserves R (os_listdir directory).
Proof.
  intros Hc w. unfold os_listdir. destruct (dir w).
  - apply preserves_attempt; [exact Hc|apply preserves_ret].
  - now apply preserves_refuse.
Qed.

Lemma preserves_exists (p : string) :
  (forall ok, P (Ev (SExists p) ok)) ->
  preserves R (os_path_exists directory p).
Proof.
  intros Hc w. unfold os_path_exists.
  destruct (stat directory p w); now apply evolves_trace.
Qed.

Lemma preserves_remove (p : string) :
  (forall ok, P (Ev (SRemove p) ok)) -> ~ keep p ->
  preserves R (os_remove directory p).
Proof.
  intros Hc Hk w. unfold os_remove.
  destruct (stat directory p w) as [[c|]|].
  - apply preserves_attempt; [exact Hc|].
    intros w'. now apply evolves_drop.
  - now apply preserves_refuse.
  - now apply preserves_refuse.
Qed.

Lemma preserves_rename (src dst : string) :
  (forall ok, P (Ev (SRename src dst) ok)) -> ~ keep src -> ~ keep dst ->
  preserves R (os_rename directory src dst).
Proof.
  intros Hc Hs Hd w. unfold os_rename.
  assert (Ha : forall x, preserves R
            (attempt (SRename src dst)
               (fun w' => (Return tt,
                           put directory dst x (drop directory src w'))))).
  { intros x. apply preserves_attempt; [exact Hc|]. intros w'. simpl.
    eapply evolves_trans; [apply (evolves_drop src), Hs|].
    apply evolves_put, Hd. }
  assert (Hr : forall e, preserves R (@refuse unit (SRename src dst) e)).
  { intros e. now apply preserves_refuse. }
  destruct (stat directory src w) as [x|]; [|apply Hr].
  destruct (entry_of directory dst); [|apply Hr].
  destruct x; destruct (stat directory dst w) as [[c'|]|];
    first [apply Ha|apply Hr].
Qed.

Lemma preserves_scan (temp : string) (h : option string)
    (names : list string) :
  (forall p ok, P (Ev (SOpenR p) ok)) ->
  preserves R (scan directory temp h names).
Proof.
  intros Hc. induction names as [|n names IH]; simpl.
  - apply preserves_ret.
  - destruct (negb _); [|exact IH].
    apply preserves_bind; [now apply preserves_get_file_hash|].
    intros h'. destruct (hash_eqb h' h); [apply preserves_ret|exact IH].
Qed.

End Evolution.

(** ** The two phases of a call *)

Ltac evolve :=
  repeat match goal with
    | |- evolves _ _ _ ?w ?w => apply evolves_refl
    | |- evolves _ _ _ _ (add_stdout _ _) =>
        eapply evolves_trans; [|apply evolves_stdout]
    | |- evolves _ _ _ _ (add_trace _ _) =>
        eapply evolves_trans; [|apply evolves_trace]
    | |- evolves _ _ _ _ (pop _) =>
        eapply evolves_trans; [|apply evolves_pop]
    end.

(** Before line 62 no exit of the call returns: the handler, or the early
    [return False], is followed by the [finally] clause, which reads
    [temp_path] before any assignment to it. *)
Lemma fetch_early (url : string) (w : world) :
  reaches_store url w = None ->
  exists w',
    fetch_and_save_image directory url w
    = (Raise (unbound "temp_path"), w')
    /\ dir w' = dir w
    /\ evolves directory (early_call directory url) (fun _ => True) w w'.
Proof.
  unfold reaches_store. intros H.
  unfold fetch_and_save_image, try_finally, try_except, fetch_body, bind,
    lift, requests_get. simpl.
  destruct (http w url) as [r|e] eqn:Hh; simpl.
  - unfold raise_for_status.
    destruct (is_http_error r) eqn:He; simpl.
    + eexists. split; [reflexivity|]. split; [reflexivity|].
      evolve. exists true. now left.
    + destruct (is_valid_image (declared_type r)) eqn:Hv; simpl.
      * simpl in H. unfold os_makedirs, attempt, next_fault, bind. simpl.
        destruct (hd None (faults w)) as [x|] eqn:Hf; [|discriminate].
        destruct x; simpl; (eexists; split; [reflexivity|]);
          (split; [simpl; now rewrite dir_pop|]); evolve;
          try (exists true; now left); exists false; now right.
      * eexists. split; [reflexivity|]. split; [reflexivity|].
        evolve. exists true. now left.
  - destruct e as [c msg]; destruct c; simpl;
      (eexists; split; [reflexivity|]); (split; [reflexivity|]);
      evolve; exists false; now left.
Qed.

(** From line 62 on, the two local variables are bound and the call is the
    storing of the image under its handlers and its clean-up. *)
Lemma fetch_late (url : string) (w : world) (r : response) :
  reaches_store url w = Some r ->
  fetch_and_save_image directory url w
  = late directory url r w (at_store directory url w).
Proof.
  unfold reaches_store. intros H.
  destruct (http w url) as [r'|e] eqn:Hh; [|discriminate].
  destruct (is_http_error r') eqn:He; [discriminate|].
  destruct (is_valid_image (declared_type r')) eqn:Hv; [|discriminate].
  simpl in H. destruct (hd None (faults w)) as [x|] eqn:Hf; [discriminate|].
  inversion H; subst r'; clear H.
  unfold fetch_and_save_image, late, at_store, try_finally, try_except,
    fetch_body, bind, lift, requests_get, raise_for_status.
  simpl. rewrite Hh. simpl. rewrite He. simpl. rewrite Hv. simpl.
  unfold os_makedirs, attempt, next_fault, bind. simpl. rewrite Hf. simpl.
  unfold temp_path_of, final_path_of.
  rewrite !dir_pop. simpl (dir (add_trace _ _)).
  destruct (dir w); simpl;
    (match goal with
     | |- context [store_image ?d ?u ?f ?fp ?tp ?c ?w1] =>
         destruct (store_image d u f fp tp c w1) as [[b|e] w2]
     end; simpl;
     [ unfold fetch_finally, bind, read_local, lift; simpl;
       now destruct (cleanup _ _ _) as [[u|e] w3]
     | unfold fetch_finally, report, fetch_handler, bind, read_local, lift,
         handler_line;
       destruct e as [c msg]; destruct c; simpl;
       now destruct (cleanup _ _ _) as [[u|e] w3] ]).
Qed.

(** ** What a call that went through tells *)

Lemma stat_add_trace (p : string) (e : event) (w : world) :
  stat directory p (add_trace e w) = stat directory p w.
Proof. reflexivity. Qed.

Lemma stat_add_stdout (p line : string) (w : world) :
  stat directory p (add_stdout line w) = stat directory p w.
Proof. reflexivity. Qed.

Lemma stat_pop (p : string) (w : world) :
  stat directory p (pop w) = stat directory p w.
Proof. unfold stat. now rewrite dir_pop. Qed.

Lemma trace_put (p : string) (x : node) (w : world) :
  trace (put directory p x w) = trace w.
Proof.
  unfold put. destruct (dir w); [|reflexivity].
  now destruct (entry_of directory p).
Qed.

Lemma trace_drop (p : string) (w : world) :
  trace (drop directory p w) = trace w.
Proof.
  unfold drop. destruct (dir w); [|reflexivity].
  now destruct (entry_of directory p).
Qed.

Lemma attempt_inv {A} (c : syscall) (run : M world A) (w : world) :
  (exists x, hd None (faults w) = Some x
             /\ attempt c run w
                = (Raise (exn_of_fault x), add_trace (Ev c false) (pop w)))
  \/ (hd None (faults w) = None
      /\ attempt c run w = run (add_trace (Ev c true) (pop w))).
Proof.
  unfold attempt, next_fault, bind, log, raise.
  destruct (hd None (faults w)) as [x|]; simpl; [left; eauto|right; auto].
Qed.

Lemma open_wb_ok (p : string) (w w' : world) :
  open_wb directory p w = (Return tt, w') ->
  w' = put directory p (File EmptyString)
         (add_trace (Ev (SOpenW p) true) (pop w))
  /\ exists l n, dir w = Some l /\ entry_of directory p = Some n.
Proof.
  unfold open_wb.
  destruct (dir w) as [l|]; [|discriminate].
  destruct (entry_of directory p) as [n|] eqn:En; [|discriminate].
  assert (Ha : attempt (SOpenW p)
                 (fun w' => (Return tt, put directory p (File EmptyString) w'))
                 w = (Return tt, w') ->
               w' = put directory p (File EmptyString)
                      (add_trace (Ev (SOpenW p) true) (pop w))
               /\ exists l0 n0, Some l = Some l0 /\ Some n = Some n0).
  { intros H. destruct (attempt_inv (SOpenW p)
      (fun w' => (Return tt, put directory p (File EmptyString) w')) w)
      as [(x & _ & E)|(_ & E)]; rewrite E in H; [discriminate|].
    inversion H. eauto. }
  destruct (lookup n l) as [[c|]|]; [exact Ha|discriminate|].
  destruct (path_error directory p w); [discriminate|exact Ha].
Qed.

Lemma file_write_ok (p data : string) (w w' : world) :
  file_write directory p data w = (Return tt, w') ->
  w' = put directory p (File data) (add_trace (Ev (SWrite p data) true) (pop w)).
Proof.
  unfold file_write. intros H.
  destruct (attempt_inv (SWrite p data)
    (fun w' => (Return tt, put directory p (File data) w')) w)
    as [(x & _ & E)|(_ & E)]; rewrite E in H; [discriminate|].
  now inversion H.
Qed.

(** [get_file_hash] returns the digest of a file that is there and [None]
    for a path that names nothing; it leaves the directory as it is. *)
Lemma get_file_hash_inv (p : string) (w w' : world) (h : option string) :
  get_file_hash directory p w = (Return h, w') ->
  dir w' = dir w
  /\ ((exists c, stat directory p w = Some (File c) /\ h = Some (sha256 c))
      \/ (stat directory p w = None /\ h = None)).
Proof.
  unfold get_file_hash, try_except, bind, read_file.
  destruct (stat directory p w) as [[c|]|] eqn:Es.
  - destruct (attempt_inv (SOpenR p) (@ret world string c) w)
      as [(x & _ & E)|(_ & E)]; rewrite E; simpl.
    + destruct x; simpl; discriminate.
    + intros H; inversion H; subst. simpl. rewrite dir_pop. eauto.
  - simpl. discriminate.
  - destruct (Path.has_nul p); unfold fail_with, refuse, next_fault, bind,
      log, raise; simpl;
      (destruct (exn_class_eqb _ _); simpl; [|discriminate]);
      intros H; inversion H; subst; simpl; rewrite ?dir_pop; eauto.
Qed.

Lemma os_listdir_ok (w w' : world) (names : list string) :
  os_listdir directory w = (Return names, w') ->
  dir w' = dir w /\ exists l, dir w = Some l /\ names = map fst l.
Proof.
  unfold os_listdir. destruct (dir w) as [l|] eqn:Ed; [|discriminate].
  destruct (attempt_inv (SListdir directory)
              (@ret world (list string) (map fst l)) w)
    as [(x & _ & E)|(_ & E)]; rewrite E; [discriminate|].
  unfold ret. intros H; inversion H; subst. simpl. rewrite dir_pop. eauto.
Qed.

(** A scan that finds nothing has compared every listed entry but the
    temporary file. *)
Lemma scan_none (temp : string) (h : option string) (names : list string)
    (w w' : world) :
  scan directory temp h names w = (Return None, w') ->
  dir w' = dir w
  /\ forall n c, In n names -> Path.join directory n <> temp ->
       stat directory (Path.join directory n) w = Some (File c) ->
       h <> Some (sha256 c).
Proof.
  revert w. induction names as [|m names IH]; simpl; intros w H.
  - inversion H; subst. split; [reflexivity|]. intros n c [].
  - destruct (String.eqb (Path.join directory m) temp) eqn:Em; simpl in H.
    + apply IH in H as [Hd Hn]. split; [exact Hd|].
      intros n c [->|Hin] Hne; [|now apply (Hn n c)].
      apply String.eqb_eq in Em. contradiction.
    + unfold bind in H.
      destruct (get_file_hash directory (Path.join directory m) w)
        as [[h'|e] w1] eqn:Eg; [|discriminate].
      apply get_file_hash_inv in Eg as [Hd1 Hh].
      destruct (hash_eqb h' h) eqn:Eh; [discriminate|].
      apply IH in H as [Hd Hn]. split; [congruence|].
      intros n c [->|Hin] Hne Hs.
      * destruct Hh as [(c' & Hs' & ->)|[Hs' _]]; [|congruence].
        assert (c' = c) by congruence. subst c'.
        intros ->. simpl in Eh. now rewrite String.eqb_refl in Eh.
      * apply (Hn n c); auto. unfold stat in *. now rewrite Hd1.
Qed.

Lemma os_rename_inv (src dst : string) (w : world) :
  (exists e w0, os_rename directory src dst w
                = (Raise e, add_trace (Ev (SRename src dst) false) w0)
                /\ (w0 = w \/ w0 = pop w))
  \/ (exists x, stat directory src w = Some x
       /\ os_rename directory src dst w
          = (Return tt,
             put directory dst x
               (drop directory src
                  (add_trace (Ev (SRename src dst) true) (pop w))))).
Proof.
  unfold os_rename.
  assert (Hr : forall e,
    exists e0 w0, @refuse unit (SRename src dst) e w
                  = (Raise e0, add_trace (Ev (SRename src dst) false) w0)
                  /\ (w0 = w \/ w0 = pop w)).
  { intros e. exists e, w. split; [reflexivity|now left]. }
  destruct (stat directory src w) as [x|] eqn:Es; [|left; apply Hr].
  destruct (entry_of directory dst) as [m|]; [|left; apply Hr].
  assert (Ha :
    (exists e w0,
        attempt (SRename src dst)
          (fun w' => (Return tt, put directory dst x (drop directory src w')))
          w = (Raise e, add_trace (Ev (SRename src dst) false) w0)
        /\ (w0 = w \/ w0 = pop w))
    \/ (exists x0, Some x = Some x0
         /\ attempt (SRename src dst)
              (fun w' => (Return tt,
                          put directory dst x (drop directory src w')))
              w = (Return tt,
                   put directory dst x0
                     (drop directory src
                        (add_trace (Ev (SRename src dst) true) (pop w)))))).
  { destruct (attempt_inv (SRename src dst)
      (fun w' => (Return tt, put directory dst x (drop directory src w'))) w)
      as [(f & _ & E)|(_ & E)]; rewrite E.
    - left. eexists _, (pop w). split; [reflexivity|now right].
    - right. exists x. split; reflexivity. }
  destruct x; destruct (stat directory dst w) as [[c'|]|];
    first [exact Ha|left; apply Hr].
Qed.

Lemma preserves_run {A} (R : world -> world -> Prop) (m : M world A)
    (w w' : world) (r : outcome A) :
  preserves R m -> m w = (r, w') -> R w w'.
Proof. intros H E. specialize (H w). now rewrite E in H. Qed.

Lemma stat_same_dir (p : string) (w w' : world) :
  dir w' = dir w -> stat directory p w' = stat directory p w.
Proof. unfold stat. now intros ->. Qed.

Lemma dir_put (p n : string) (x : node) (l : listing) (w : world) :
  entry_of directory p = Some n -> dir w = Some l ->
  dir (put directory p x w) = Some (set_entry n x l).
Proof. unfold put. now intros -> ->. Qed.

Lemma dir_drop (p n : string) (l : listing) (w : world) :
  entry_of directory p = Some n -> dir w = Some l ->
  dir (drop directory p w) = Some (remove_entry n l).
Proof. unfold drop. now intros -> ->. Qed.

Lemma stat_put_here (p n : string) (x : node) (l : listing) (w : world) :
  entry_of directory p = Some n -> dir w = Some l ->
  stat directory p (put directory p x w) = Some x.
Proof.
  intros En Hd. unfold stat. rewrite (dir_put p n x l w En Hd), En.
  apply lookup_set_same.
Qed.

Lemma stat_lookup (n : string) (l : listing) (w : world) :
  dir w = Some l ->
  stat directory (Path.dirprefix directory ++ n) w = lookup n l.
Proof. intros Hd. unfold stat. now rewrite Hd, entry_of_prefix. Qed.

Lemma in_names_set (n m : string) (x : node) (l : listing) :
  In n (map fst l) -> In n (map fst (set_entry m x l)).
Proof.
  clear urlparse_path sha256 directory.
  induction l as [|[k y] l IH]; simpl; [tauto|].
  destruct (String.eqb k m); simpl; tauto.
Qed.

(** ** Staging, settling and cleaning up *)

Lemma store_image_split (url filename fpath tpath data : string) (w : world) :
  store_image directory url filename fpath tpath data w
  = bind (stage directory tpath data) (settle directory url filename fpath tpath)
      w.
Proof.
  unfold store_image, stage, settle, bind.
  destruct (open_wb directory tpath w) as [[u|e] w1]; [|reflexivity].
  destruct (file_write directory tpath data w1) as [[u'|e] w2]; [|reflexivity].
  destruct (get_file_hash directory tpath w2) as [[h|e] w3]; [|reflexivity].
  destruct (os_listdir directory w3) as [[names|e] w4]; [|reflexivity].
  now destruct (scan directory tpath h names w4) as [[[f|]|e] w5].
Qed.

Lemma preserves_stage (tpath data : string) :
  preserves (evolves directory (quiet tpath) (fun p => p <> tpath))
    (stage directory tpath data).
Proof.
  unfold stage.
  apply preserves_bind; [apply preserves_open_wb; simpl; auto|intros _].
  apply preserves_bind; [apply preserves_file_write; simpl; auto|intros _].
  apply preserves_bind; [apply preserves_get_file_hash; simpl; auto|intros h].
  apply preserves_bind; [apply preserves_listdir; simpl; auto|intros names].
  apply preserves_scan; simpl; auto.
Qed.

Lemma preserves_cleanup (P : event -> Prop) (keep : string -> Prop)
    (tpath : string) :
  (forall ok, P (Ev (SExists tpath) ok)) ->
  (forall ok, P (Ev (SRemove tpath) ok)) -> ~ keep tpath ->
  preserves (evolves directory P keep) (cleanup directory tpath).
Proof.
  intros He Hr Hk. unfold cleanup.
  apply preserves_bind; [now apply preserves_exists|intros there].
  destruct there; [|apply preserves_ret].
  apply preserves_try_except; [now apply preserves_remove|].
  intros e. apply preserves_ret.
Qed.

Lemma preserves_report (P : event -> Prop) (keep : string -> Prop)
    (url fpath : string) (e : exn) :
  preserves (evolves directory P keep) (report url fpath e).
Proof.
  unfold report. apply preserves_bind; [apply preserves_print|].
  intros _. apply preserves_ret.
Qed.

(** When the scan finds nothing, the temporary file holds the whole body,
    its writing is logged, and no other entry that was listed is a file of
    the same digest. *)
Lemma stage_none (tpath data : string) (w wa : world) (l : listing) :
  dir w = Some l ->
  stage directory tpath data w = (Return None, wa) ->
  stat directory tpath wa = Some (File data)
  /\ (exists evs, trace wa = (trace w ++ evs)%list
                  /\ In (Ev (SWrite tpath data) true) evs)
  /\ (forall n c, In n (map fst l) -> Path.join directory n <> tpath ->
        stat directory (Path.join directory n) w = Some (File c) ->
        sha256 c <> sha256 data).
Proof.
  intros Hd. unfold stage, bind.
  destruct (open_wb directory tpath w) as [[[]|e] w1] eqn:E1; [|discriminate].
  destruct (file_write directory tpath data w1) as [[[]|e] w2] eqn:E2;
    [|discriminate].
  destruct (get_file_hash directory tpath w2) as [[h|e] w3] eqn:E3;
    [|discriminate].
  destruct (os_listdir directory w3) as [[names|e] w4] eqn:E4; [|discriminate].
  intros E5.
  apply open_wb_ok in E1 as [-> (l0 & tn & Hd0 & En)].
  assert (l0 = l) by congruence. subst l0.
  apply file_write_ok in E2.
  set (wo := add_trace (Ev (SOpenW tpath) true) (pop w)) in *.
  assert (Hdo : dir wo = Some l) by (unfold wo; simpl; now rewrite dir_pop).
  set (w1 := put directory tpath (File EmptyString) wo) in *.
  assert (Hd1 : dir w1 = Some (set_entry tn (File EmptyString) l))
    by (apply dir_put; assumption).
  set (ww := add_trace (Ev (SWrite tpath data) true) (pop w1)) in *.
  assert (Hdw : dir ww = Some (set_entry tn (File EmptyString) l))
    by (unfold ww; simpl; now rewrite dir_pop).
  assert (Hs2 : stat directory tpath w2 = Some (File data))
    by (subst w2; eapply stat_put_here; eassumption).
  assert (Hd2 : dir w2 = Some (set_entry tn (File data)
                                 (set_entry tn (File EmptyString) l)))
    by (subst w2; apply dir_put; assumption).
  assert (Ht2 : trace w2 = (trace w ++ [Ev (SOpenW tpath) true;
                                        Ev (SWrite tpath data) true])%list).
  { subst w2. rewrite trace_put. unfold ww. simpl. rewrite trace_pop.
    unfold w1. rewrite trace_put. unfold wo. simpl. rewrite trace_pop.
    now rewrite <- app_assoc. }
  assert (Hev : evolves directory (quiet tpath) (fun p => p <> tpath) w2 wa).
  { eapply evolves_trans;
      [eapply preserves_run;
       [apply preserves_get_file_hash; simpl; auto|exact E3]|].
    eapply evolves_trans;
      [eapply preserves_run; [apply preserves_listdir; simpl; auto|exact E4]|].
    eapply preserves_run; [apply preserves_scan; simpl; auto|exact E5]. }
  apply get_file_hash_inv in E3 as [Hd3 Hh].
  destruct Hh as [(c & Hc & ->)|[Hc _]]; [|congruence].
  assert (c = data) by congruence. subst c.
  apply os_listdir_ok in E4 as [Hd4 (l4 & Hl4 & ->)].
  apply scan_none in E5 as [Hd5 Hn].
  assert (Hda : dir wa = dir w2) by congruence.
  split; [|split].
  - rewrite (stat_same_dir tpath w2 wa Hda). exact Hs2.
  - destruct Hev as (_ & _ & _ & (evs & Ht & _) & _).
    exists ([Ev (SOpenW tpath) true; Ev (SWrite tpath data) true] ++ evs)%list.
    split; [rewrite Ht, Ht2; now rewrite <- app_assoc|].
    simpl. auto.
  - intros n c Hin Hne Hs Heq.
    apply (Hn n c); [| exact Hne | | now rewrite Heq].
    + assert (l4 = set_entry tn (File data)
                     (set_entry tn (File EmptyString) l)) by congruence.
      subst l4. now apply in_names_set, in_names_set.
    + rewrite (stat_same_dir _ w2 w4) by congruence.
      subst w2. rewrite stat_put_other by exact Hne.
      unfold ww. rewrite stat_add_trace, stat_pop.
      unfold w1. rewrite stat_put_other by exact Hne.
      unfold wo. now rewrite stat_add_trace, stat_pop.
Qed.

Lemma evolves_weaken (P P' : event -> Prop) (keep keep' : string -> Prop)
    (w w' : world) :
  (forall e, P e -> P' e) -> (forall p, keep' p -> keep p) ->
  evolves directory P keep w w' -> evolves directory P' keep' w w'.
Proof.
  intros HP Hk (Hh & Hn & Hf & (evs & Ht & Hq) & Hs).
  repeat split; auto.
  exists evs. split; [exact Ht|].
  eapply Forall_impl; [exact HP|exact Hq].
Qed.

Lemma quiet_on_temp (tpath fpath : string) (e : event) :
  quiet tpath e -> on_temp tpath fpath e.
Proof.
  clear urlparse_path sha256 directory.
  destruct e as [[] ok]; simpl; tauto. Qed.

(** The clean-up always returns; it tests the path and, when something is
    there, tries once to remove it. *)
Lemma cleanup_spec (tpath : string) (w : world) :
  exists w',
    cleanup directory tpath w = (Return tt, w')
    /\ ((stat directory tpath w = None
         /\ w' = add_trace (Ev (SExists tpath) false) w)
        \/ (stat directory tpath w <> None
            /\ exists ok,
                 trace w' = (trace w ++ [Ev (SExists tpath) true;
                                         Ev (SRemove tpath) ok])%list
                 /\ (ok = true -> stat directory tpath w' = None))).
Proof.
  unfold cleanup, bind, os_path_exists, try_except, os_remove.
  destruct (stat directory tpath w) as [x|] eqn:Es.
  - rewrite stat_add_trace, Es.
    destruct x as [c|].
    + destruct (attempt_inv (SRemove tpath)
        (fun w' => (Return tt, drop directory tpath w'))
        (add_trace (Ev (SExists tpath) true) w))
        as [(x & _ & E)|(_ & E)]; rewrite E.
      * eexists. split; [reflexivity|]. right. split; [discriminate|].
        exists false. split; [|discriminate].
        simpl. rewrite trace_pop. simpl. now rewrite <- app_assoc.
      * eexists. split; [reflexivity|]. right. split; [discriminate|].
        exists true. split; [|intros _; apply stat_drop_same].
        rewrite trace_drop. simpl. rewrite trace_pop. simpl.
        now rewrite <- app_assoc.
    + eexists. split; [reflexivity|]. right. split; [discriminate|].
      exists false. split; [|discriminate].
      simpl. now rewrite <- app_assoc.
  - eexists. split; [reflexivity|]. left. auto.
Qed.

(** The world at line 62. *)
Lemma at_store_spec (url : string) (w : world) (r : response) :
  reaches_store url w = Some r ->
  dir (at_store directory url w) = Some (entries w)
  /\ (forall p, stat directory p (at_store directory url w)
                = stat directory p w)
  /\ trace (at_store directory url w)
     = (trace w ++ [Ev (SGet url) true; Ev (SMakedirs directory) true])%list
  /\ evolves directory (early_call directory url) (fun _ => True)
       w (at_store directory url w).
Proof.
  unfold reaches_store. intros H.
  destruct (http w url) as [r'|e] eqn:Hh; [|discriminate].
  destruct (is_http_error r' || negb (is_valid_image (declared_type r')));
    [discriminate|].
  destruct (hd None (faults w)) as [x|] eqn:Hf; [discriminate|].
  assert (Hev : evolves directory (early_call directory url) (fun _ => True)
                  (add_trace (Ev (SGet url) true) w)
                  (at_store directory url w)).
  { apply (preserves_makedirs (early_call directory url) (fun _ => True)).
    intros ok. exists ok. now right. }
  assert (Hev0 : evolves directory (early_call directory url) (fun _ => True)
                   w (at_store directory url w)).
  { eapply evolves_trans; [apply evolves_trace|exact Hev].
    exists true. now left. }
  unfold at_store, os_makedirs in *.
  destruct (attempt_inv (SMakedirs directory)
    (fun w0 => match dir w0 with
               | Some _ => (Return tt, w0)
               | None => (Return tt, set_dir (Some []) w0)
               end) (add_trace (Ev (SGet url) true) w))
    as [(x & Hx & _)|(_ & E)]; [simpl in Hx; congruence|].
  rewrite E in *. simpl (dir (add_trace _ _)) in *. rewrite dir_pop in *.
  simpl (dir (add_trace _ _)) in *.
  destruct (dir w) as [l|] eqn:Hd; simpl in *;
    (split; [|split; [|split; [|exact Hev0]]]).
  - unfold entries. now rewrite dir_pop, Hd.
  - intros p. now rewrite stat_add_trace, stat_pop, stat_add_trace.
  - rewrite trace_pop. simpl. now rewrite <- app_assoc.
  - unfold entries. now rewrite Hd.
  - intros p. destruct Hev0 as (_ & _ & _ & _ & K). now apply K.
  - rewrite trace_pop. simpl. now rewrite <- app_assoc.
Qed.

Lemma evolves_events (P : event -> Prop) (keep : string -> Prop)
    (w w' : world) :
  evolves directory P keep w w' ->
  exists evs, trace w' = (trace w ++ evs)%list /\ Forall P evs.
Proof. now intros (_ & _ & _ & H & _). Qed.

Lemma evolves_keep (P : event -> Prop) (keep : string -> Prop)
    (w w' : world) (p : string) :
  evolves directory P keep w w' -> keep p ->
  stat directory p w' = stat directory p w.
Proof. intros (_ & _ & _ & _ & H). apply H. Qed.

Lemma preserves_settle (url filename fpath tpath : string)
    (dup : option string) :
  preserves
    (evolves directory (on_temp tpath fpath)
       (fun p => p <> tpath /\ p <> fpath))
    (settle directory url filename fpath tpath dup).
Proof.
  clear urlparse_path sha256.
  unfold settle. destruct dup as [f|].
  - apply preserves_bind; [apply preserves_print|intros _].
    apply preserves_bind; [|intros _; apply preserves_ret].
    apply preserves_remove; simpl; tauto.
  - apply preserves_bind; [|intros _].
    + apply preserves_rename; simpl; tauto.
    + apply preserves_bind; [apply preserves_print|intros _].
      apply preserves_bind; [apply preserves_print|intros _].
      apply preserves_ret.
Qed.

Lemma preserves_store_image (url filename fpath tpath data : string) :
  preserves
    (evolves directory (on_temp tpath fpath)
       (fun p => p <> tpath /\ p <> fpath))
    (store_image directory url filename fpath tpath data).
Proof.
  clear urlparse_path.
  intros w. rewrite store_image_split. revert w.
  apply preserves_bind; [|intros dup; apply preserves_settle].
  intros w. eapply evolves_weaken; [| |apply preserves_stage].
  - apply quiet_on_temp.
  - simpl. tauto.
Qed.

(** The storing of the image under the handlers: it returns a boolean;
    either nothing is renamed and the final path names what it named, or
    the renaming is the last call, made after the body was written to the
    temporary file and the scan found no file of its digest. *)
Lemma handled_store (url filename fpath tpath data tn fn : string)
    (w1 : world) (l1 : listing) :
  dir w1 = Some l1 ->
  entry_of directory tpath = Some tn -> entry_of directory fpath = Some fn ->
  fpath <> tpath ->
  exists b w3 evs,
    try_except (store_image directory url filename fpath tpath data)
      (report url fpath) w1 = (Return b, w3)
    /\ trace w3 = (trace w1 ++ evs)%list
    /\ evolves directory (on_temp tpath fpath)
         (fun p => p <> tpath /\ p <> fpath) w1 w3
    /\ ((Forall (quiet tpath) evs /\ b = false
         /\ stat directory fpath w3 = stat directory fpath w1)
        \/ (exists ok evs1,
              evs = (evs1 ++ [Ev (SRename tpath fpath) ok])%list
              /\ Forall (quiet tpath) evs1
              /\ In (Ev (SWrite tpath data) true) evs1
              /\ (forall n c, In n (map fst l1) ->
                    Path.join directory n <> tpath ->
                    stat directory (Path.join directory n) w1
                    = Some (File c) ->
                    sha256 c <> sha256 data)
              /\ b = ok
              /\ (if ok
                  then stat directory fpath w3 = Some (File data)
                       /\ stat directory tpath w3 = None
                  else stat directory fpath w3 = stat directory fpath w1))).
Proof.
  intros Hd Etn Efn Hne.
  pose proof (preserves_try_except _ _ _ _
    (preserves_store_image url filename fpath tpath data)
    (preserves_report (on_temp tpath fpath)
       (fun p => p <> tpath /\ p <> fpath) url fpath) w1) as Hall.
  revert Hall. unfold try_except. rewrite store_image_split. unfold bind.
  destruct (stage directory tpath data w1) as [[dup|e] wa] eqn:Es.
  - pose proof (preserves_run _ _ _ _ _ (preserves_stage tpath data) Es)
      as Hst.
    destruct dup as [f|].
    + (* a duplicate was found *)
      unfold settle, bind, print.
      set (wp := add_stdout _ wa).
      assert (Hp : evolves directory (quiet tpath) (fun p => p <> tpath)
                     w1 wp).
      { eapply evolves_trans; [exact Hst|apply evolves_stdout]. }
      destruct (os_remove directory tpath wp) as [[[]|e] wb] eqn:Er.
      * assert (Hb : evolves directory (quiet tpath) (fun p => p <> tpath)
                       w1 wb).
        { eapply evolves_trans; [exact Hp|].
          eapply preserves_run; [|exact Er].
          apply preserves_remove; simpl; auto. }
        destruct (evolves_events _ _ _ _ Hb) as (evs & Ht & Hq).
        simpl. intros Hall. exists false, wb, evs.
        split; [reflexivity|]. split; [exact Ht|]. split; [exact Hall|].
        left. split; [exact Hq|]. split; [reflexivity|].
        eapply evolves_keep; [exact Hb|exact Hne].
      * assert (Hb : evolves directory (quiet tpath) (fun p => p <> tpath)
                       w1 (add_stdout (handler_line url fpath e) wb)).
        { eapply evolves_trans; [exact Hp|].
          eapply evolves_trans; [|apply evolves_stdout].
          eapply preserves_run; [|exact Er].
          apply preserves_remove; simpl; auto. }
        destruct (evolves_events _ _ _ _ Hb) as (evs & Ht & Hq).
        unfold report, bind, print, ret. simpl. intros Hall.
        eexists false, _, evs.
        split; [reflexivity|]. split; [exact Ht|]. split; [exact Hall|].
        left. split; [exact Hq|]. split; [reflexivity|].
        eapply evolves_keep; [exact Hb|exact Hne].
    + (* the scan found nothing: the renaming is tried *)
      destruct (stage_none tpath data w1 wa l1 Hd Es) as (Hs & _ & Hnm).
      destruct (evolves_events _ _ _ _ Hst) as (evs1 & Ht1 & Hq1).
      assert (Hw : In (Ev (SWrite tpath data) true) evs1).
      { destruct (stage_none tpath data w1 wa l1 Hd Es)
          as (_ & (evs' & Ht' & Hin) & _).
        rewrite Ht1 in Ht'. apply app_inv_head in Ht'. now subst evs'. }
      unfold settle, bind.
      destruct (os_rename_inv tpath fpath wa)
        as [(e & w0 & E & Hw0)|(x & Hx & E)]; rewrite E.
      * unfold report, bind, print, ret. simpl. intros Hall.
        eexists false, _, (evs1 ++ [Ev (SRename tpath fpath) false])%list.
        split; [reflexivity|].
        assert (Ht0 : trace w0 = trace wa)
          by (destruct Hw0; subst w0; [reflexivity|apply trace_pop]).
        assert (Hs0 : stat directory fpath w0 = stat directory fpath wa)
          by (destruct Hw0; subst w0; [reflexivity|apply stat_pop]).
        split; [simpl; now rewrite Ht0, Ht1, app_assoc|].
        split; [exact Hall|]. right.
        exists false, evs1. repeat split; auto.
        rewrite stat_add_stdout, stat_add_trace, Hs0.
        eapply evolves_keep; [exact Hst|exact Hne].
      * assert (x = File data) by congruence. subst x.
        unfold print, ret. simpl. intros Hall.
        eexists true, _, (evs1 ++ [Ev (SRename tpath fpath) true])%list.
        split; [reflexivity|].
        split; [simpl; rewrite trace_put, trace_drop; simpl;
                now rewrite trace_pop, Ht1, app_assoc|].
        split; [exact Hall|]. right.
        exists true, evs1. repeat split; auto.
        -- rewrite !stat_add_stdout.
           assert (Hda : exists la, dir wa = Some la).
           { unfold stat in Hs. destruct (dir wa) as [la|]; [eauto|].
             discriminate. }
           destruct Hda as [la Hda].
           eapply stat_put_here; [exact Efn|].
           eapply dir_drop; [exact Etn|].
           simpl. rewrite dir_pop. exact Hda.
        -- rewrite !stat_add_stdout.
           rewrite stat_put_other by auto. apply stat_drop_same.
  - (* the staging raised *)
    pose proof (preserves_run _ _ _ _ _ (preserves_stage tpath data) Es)
      as Hst.
    assert (Hb : evolves directory (quiet tpath) (fun p => p <> tpath)
                   w1 (add_stdout (handler_line url fpath e) wa)).
    { eapply evolves_trans; [exact Hst|apply evolves_stdout]. }
    destruct (evolves_events _ _ _ _ Hb) as (evs & Ht & Hq).
    unfold report, bind, print, ret. simpl. intros Hall.
    eexists false, _, evs.
    split; [reflexivity|]. split; [exact Ht|]. split; [exact Hall|].
    left. split; [exact Hq|]. split; [reflexivity|].
    eapply evolves_keep; [exact Hb|exact Hne].
Qed.

Lemma early_call_quiet (url tpath : string) (e : event) :
  early_call directory url e -> quiet tpath e.
Proof. intros [ok [->| ->]]; exact I. Qed.

(** A call that reaches line 62: what it returns, what it logs and what
    it leaves in the directory. *)
Lemma fetch_late_spec (url : string) (w : world) (r : response) :
  reaches_store url w = Some r ->
  let fp := final_path_of directory url w in
  let tp := temp_path_of directory url w in
  let data := content r in
  exists b w' evs,
    fetch_and_save_image directory url w = (Return b, w')
    /\ trace w' = (trace w ++ evs)%list
    /\ evolves directory (on_temp tp fp) (fun p => p <> tp /\ p <> fp) w w'
    /\ ((exists pre, evs = (pre ++ [Ev (SExists tp) false])%list
                     /\ stat directory tp w' = None)
        \/ (exists pre ok,
              evs = (pre ++ [Ev (SExists tp) true; Ev (SRemove tp) ok])%list
              /\ (ok = true -> stat directory tp w' = None)))
    /\ ((Forall (quiet tp) evs /\ b = false
         /\ stat directory fp w' = stat directory fp w)
        \/ (exists ok evs1 evs2,
              evs = (evs1 ++ Ev (SRename tp fp) ok :: evs2)%list
              /\ Forall (quiet tp) evs1 /\ Forall (quiet tp) evs2
              /\ In (Ev (SWrite tp data) true) evs1
              /\ no_match directory tp data w
              /\ b = ok
              /\ (if ok
                  then stat directory fp w' = Some (File data)
                       /\ stat directory tp w' = None
                  else stat directory fp w' = stat directory fp w))).
Proof.
  intros H fp tp data. rewrite (fetch_late url w r H).
  unfold late, try_finally. fold fp tp data.
  destruct (at_store_spec url w r H) as (Hd1 & Hs1 & Ht1 & Hev1).
  set (w1 := at_store directory url w) in *.
  set (l1 := entries w) in *.
  assert (Hl1 : forall l, dir w = Some l -> l1 = l).
  { intros l Hl. unfold l1, entries. now rewrite Hl. }
  assert (Etn : entry_of directory tp
                = Some (derive_filename url (now w) ++ ".tmp")).
  { unfold tp. rewrite temp_path_entry. apply entry_of_prefix. }
  assert (Efn : entry_of directory fp = Some (derive_filename url (now w))).
  { unfold fp. rewrite final_path_entry. apply entry_of_prefix. }
  assert (Hne : fp <> tp).
  { intros E. symmetry in E. revert E. apply temp_path_neq_final. }
  destruct (handled_store url (derive_filename url (now w)) fp tp data
              _ _ w1 l1 Hd1 Etn Efn Hne)
    as (b & w3 & evs & E & Ht & Hev & Hcase).
  rewrite E.
  destruct (cleanup_spec tp w3) as (w' & Ec & Hc). rewrite Ec.
  assert (Hcl : evolves directory (quiet tp) (fun p => p <> tp) w3 w').
  { eapply preserves_run; [|exact Ec].
    apply preserves_cleanup; simpl; auto. }
  destruct (evolves_events _ _ _ _ Hcl) as (evc & Htc & Hqc).
  assert (Hfp : stat directory fp w' = stat directory fp w3)
    by (eapply evolves_keep; [exact Hcl|exact Hne]).
  exists b, w',
    ([Ev (SGet url) true; Ev (SMakedirs directory) true] ++ evs ++ evc)%list.
  split; [reflexivity|].
  split; [rewrite Htc, Ht, Ht1; now rewrite <- !app_assoc|].
  split.
  { eapply evolves_trans; [|eapply evolves_trans; [exact Hev|]].
    - apply (evolves_weaken (early_call directory url) _ (fun _ => True) _
               w w1); [|auto|exact Hev1].
      intros e He. eapply quiet_on_temp, early_call_quiet, He.
    - apply (evolves_weaken (quiet tp) _ (fun p => p <> tp) _ w3 w');
        [apply quiet_on_temp|simpl; tauto|exact Hcl]. }
  split.
  { destruct Hc as [[Hn ->]|(Hn & ok & Ht' & Hok)].
    - left. simpl in Htc. apply app_inv_head in Htc. subst evc.
      eexists. split; [now rewrite !app_assoc|].
      rewrite stat_add_trace. exact Hn.
    - right. rewrite Htc in Ht'. apply app_inv_head in Ht'. subst evc.
      eexists _, ok. split; [|exact Hok].
      now rewrite !app_assoc. }
  destruct Hcase as [(Hq & -> & Hf)|(ok & evs1 & -> & Hq1 & Hw & Hnm & -> & Hok)].
  - left. split; [|split; [reflexivity|]].
    + repeat apply Forall_cons; try exact I.
      apply Forall_app. now split.
    + rewrite Hfp, Hf. apply Hs1.
  - right.
    exists ok, ([Ev (SGet url) true; Ev (SMakedirs directory) true] ++ evs1)%list,
      evc.
    split; [now rewrite <- !app_assoc|].
    split; [repeat apply Forall_cons; try exact I; exact Hq1|].
    split; [exact Hqc|].
    split; [apply in_or_app; now right|].
    split.
    { intros l n c Hl Hin Hnp Hst.
      apply (Hnm n c); auto.
      - now rewrite (Hl1 l Hl).
      - rewrite Hs1. exact Hst. }
    split; [reflexivity|].
    destruct ok.
    + destruct Hok as [Hf' Ht'].
      split; [now rewrite Hfp|].
      destruct Hc as [[Hn ->]|(Hn & _)]; [|contradiction].
      now rewrite stat_add_trace.
    + rewrite Hfp, Hok. apply Hs1.
Qed.

(** ** The clean-up on the exits after line 62 *)


(** ** Temporary file first, renaming last *)




(** ** The digests of the stored files stay distinct *)

Lemma stat_entries (n : string) (w : world) :
  stat directory (Path.dirprefix directory ++ n) w = lookup n (entries w).
Proof.
  unfold stat, entries. rewrite entry_of_prefix. now destruct (dir w).
Qed.

Lemma hash_unique_remove (n : string) (l : listing) :
  hash_unique l -> hash_unique (remove_entry n l).
Proof.
  intros H n1 n2 c1 c2 H1 H2.
  destruct (string_dec n1 n) as [->|N1];
    [now rewrite lookup_remove_same in H1|].
  destruct (string_dec n2 n) as [->|N2];
    [now rewrite lookup_remove_same in H2|].
  rewrite lookup_remove_other in H1, H2 by assumption.
  now apply (H n1 n2 c1 c2).
Qed.

Lemma temp_name_relative (url : string) (t : datetime) :
  Str.starts_with_char "/" (derive_filename url t ++ ".tmp") = false.
Proof.
  pose proof (derive_filename_relative url t) as H.
  destruct (derive_filename url t); [reflexivity|exact H].
Qed.

(** C2, as amended: from a directory whose files have distinct digests, a
    sequential run leaves the entries other than its temporary file with
    distinct digests; the whole directory has distinct digests again
    whenever no temporary file is left, that is, unless its removal
    failed. *)
Theorem dedup_keeps_digests_distinct (url : string) (w : world) :
  relative_names (entries w) -> hash_unique (entries w) ->
  let tn := derive_filename url (now w) ++ ".tmp" in
  let l' := entries (snd (fetch_and_save_image directory url w)) in
  relative_names l'
  /\ hash_unique (remove_entry tn l')
  /\ (lookup tn l' = None -> hash_unique l').
Proof.
  intros Hrel Huniq tn l'.
  assert (Hgoal : relative_names l' /\ hash_unique (remove_entry tn l')).
  2:{ destruct Hgoal as [H1 H2]. repeat split; auto.
      intros Hn. now rewrite <- (remove_absent tn l' Hn). }
  destruct (reaches_store url w) as [r|] eqn:Hr.
  - destruct (fetch_late_spec url w r Hr)
      as (b & w2 & evs & E & _ & Hev & _ & Hcase).
    set (fp := final_path_of directory url w) in *.
    set (tp := temp_path_of directory url w) in *.
    set (fn := derive_filename url (now w)) in *.
    assert (El : l' = entries w2) by (unfold l'; now rewrite E).
    assert (Etp : tp = Path.dirprefix directory ++ tn)
      by apply temp_path_entry.
    assert (Efp : fp = Path.dirprefix directory ++ fn)
      by apply final_path_entry.
    assert (Hother : forall n, n <> tn -> n <> fn ->
                       lookup n l' = lookup n (entries w)).
    { intros n N1 N2. rewrite El, <- !stat_entries.
      eapply evolves_keep; [exact Hev|]. simpl. rewrite Etp, Efp.
      split; intros Eq; apply append_inj_l in Eq; contradiction. }
    assert (Hfn : lookup fn l' = lookup fn (entries w)
                  \/ (lookup fn l' = Some (File (content r))
                      /\ no_match directory tp (content r) w)).
    { rewrite El, <- !stat_entries, <- Efp.
      destruct Hcase as [(_ & _ & Hf)|(ok & _ & _ & _ & _ & _ & _ & Hnm & _ & Hok)].
      - now left.
      - destruct ok; [right; tauto|now left]. }
    split.
    + intros n x Hl.
      destruct (string_dec n tn) as [->|N1]; [apply temp_name_relative|].
      destruct (string_dec n fn) as [->|N2];
        [apply derive_filename_relative|].
      rewrite Hother in Hl by assumption. eapply Hrel; eauto.
    + destruct Hfn as [Hf|[Hf Hnm]].
      * (* the final path names what it named *)
        intros n1 n2 c1 c2 H1 H2.
        destruct (string_dec n1 tn) as [->|N1];
          [now rewrite lookup_remove_same in H1|].
        destruct (string_dec n2 tn) as [->|N2];
          [now rewrite lookup_remove_same in H2|].
        rewrite lookup_remove_other in H1, H2 by assumption.
        assert (Hl : forall n, n <> tn -> lookup n l' = lookup n (entries w)).
        { intros n N. destruct (string_dec n fn) as [->|N']; auto. }
        rewrite Hl in H1, H2 by assumption.
        now apply (Huniq n1 n2 c1 c2).
      * (* the image was stored: no other file has its digest *)
        assert (Hfresh : forall n c, n <> tn -> n <> fn ->
                  lookup n (entries w) = Some (File c) ->
                  sha256 c <> sha256 (content r)).
        { intros n c N1 N2 Hl.
          assert (Hrn : Str.starts_with_char "/" n = false)
            by (eapply Hrel; eauto).
          unfold entries in Hl. destruct (dir w) as [l|] eqn:Hd;
            [|discriminate].
          apply (Hnm l n c Hd).
          - apply lookup_in_names. congruence.
          - rewrite join_relative, Etp by exact Hrn.
            intros Eq. apply append_inj_l in Eq. contradiction.
          - rewrite join_relative by exact Hrn.
            rewrite stat_entries. unfold entries. now rewrite Hd. }
        intros n1 n2 c1 c2 H1 H2 Hh.
        destruct (string_dec n1 tn) as [->|N1];
          [now rewrite lookup_remove_same in H1|].
        destruct (string_dec n2 tn) as [->|N2];
          [now rewrite lookup_remove_same in H2|].
        rewrite lookup_remove_other in H1, H2 by assumption.
        destruct (string_dec n1 fn) as [->|F1];
          destruct (string_dec n2 fn) as [->|F2]; auto.
        -- rewrite Hf in H1. inversion H1; subst c1.
           rewrite Hother in H2 by assumption.
           exfalso. apply (Hfresh n2 c2 N2 F2 H2). congruence.
        -- rewrite Hf in H2. inversion H2; subst c2.
           rewrite Hother in H1 by assumption.
           exfalso. now apply (Hfresh n1 c1 N1 F1 H1).
        -- rewrite Hother in H1, H2 by assumption.
           now apply (Huniq n1 n2 c1 c2).
  - destruct (fetch_early url w Hr) as (w2 & E & Hd & _).
    assert (El : l' = entries w).
    { unfold l'. rewrite E. simpl. unfold entries. now rewrite Hd. }
    rewrite El. split; [exact Hrel|now apply hash_unique_remove].
Qed.

(** ** Runs in which no call fails *)

Lemma pop_calm (w : world) : faults w = [] -> pop w = w.
Proof. unfold pop. now intros ->. Qed.

Lemma attempt_calm {A} (c : syscall) (run : M world A) (w : world) :
  faults w = [] -> attempt c run w = run (add_trace (Ev c true) w).
Proof.
  intros Hf. destruct (attempt_inv c run w) as [(x & Hx & _)|(_ & E)].
  - rewrite Hf in Hx. discriminate.
  - now rewrite E, pop_calm.
Qed.

Lemma faults_put (p : string) (x : node) (w : world) :
  faults (put directory p x w) = faults w.
Proof.
  unfold put. destruct (dir w); [|reflexivity].
  now destruct (entry_of directory p).
Qed.

Lemma faults_drop (p : string) (w : world) :
  faults (drop directory p w) = faults w.
Proof.
  unfold drop. destruct (dir w); [|reflexivity].
  now destruct (entry_of directory p).
Qed.

Lemma stdout_put (p : string) (x : node) (w : world) :
  stdout (put directory p x w) = stdout w.
Proof.
  unfold put. destruct (dir w); [|reflexivity].
  now destruct (entry_of directory p).
Qed.

Lemma stdout_drop (p : string) (w : world) :
  stdout (drop directory p w) = stdout w.
Proof.
  unfold drop. destruct (dir w); [|reflexivity].
  now destruct (entry_of directory p).
Qed.

Lemma nameable_relative (n : string) :
  nameable directory n -> Str.starts_with_char "/" n = false.
Proof. intros (_ & _ & _ & _ & H & _). now apply no_slash_relative. Qed.

(** Nothing stands in the way of a nameable entry. *)
Lemma path_error_nameable (n : string) (w : world) :
  nameable directory n ->
  path_error directory (Path.dirprefix directory ++ n) w = None.
Proof.
  intros Hn. pose proof (nameable_relative n Hn) as Hr.
  destruct Hn as (_ & N1 & N2 & N3 & Hs & Hz & Hl).
  rewrite join_relative in Hz, Hl by exact Hr.
  unfold path_error. rewrite Hz, Hl.
  destruct (dir w) as [l|]; [|reflexivity].
  rewrite entry_of_prefix.
  apply String.eqb_neq in N1, N2, N3. now rewrite N1, N2, N3, Hs.
Qed.

Lemma open_wb_calm (p n : string) (l : listing) (w : world) :
  faults w = [] -> dir w = Some l -> entry_of directory p = Some n ->
  lookup n l <> Some Dir -> nameable directory n ->
  open_wb directory p w
  = (Return tt,
     put directory p (File EmptyString) (add_trace (Ev (SOpenW p) true) w)).
Proof.
  intros Hf Hd En Hl Hn. unfold open_wb. rewrite Hd, En.
  destruct (lookup n l) as [[c|]|]; try contradiction;
    [now rewrite attempt_calm|].
  rewrite (entry_of_inv _ _ En), path_error_nameable by exact Hn.
  now rewrite attempt_calm.
Qed.

Lemma file_write_calm (p data : string) (w : world) :
  faults w = [] ->
  file_write directory p data w
  = (Return tt,
     put directory p (File data) (add_trace (Ev (SWrite p data) true) w)).
Proof. intros Hf. unfold file_write. now rewrite attempt_calm. Qed.

Lemma get_file_hash_calm (p c : string) (w : world) :
  faults w = [] -> stat directory p w = Some (File c) ->
  get_file_hash directory p w
  = (Return (Some (sha256 c)), add_trace (Ev (SOpenR p) true) w).
Proof.
  intros Hf Hs. unfold get_file_hash, try_except, bind, read_file.
  rewrite Hs. now rewrite attempt_calm.
Qed.

Lemma os_listdir_calm (l : listing) (w : world) :
  faults w = [] -> dir w = Some l ->
  os_listdir directory w
  = (Return (map fst l), add_trace (Ev (SListdir directory) true) w).
Proof.
  intros Hf Hd. unfold os_listdir. rewrite Hd. now rewrite attempt_calm.
Qed.

Lemma os_remove_calm (p c : string) (w : world) :
  faults w = [] -> stat directory p w = Some (File c) ->
  os_remove directory p w
  = (Return tt, drop directory p (add_trace (Ev (SRemove p) true) w)).
Proof.
  intros Hf Hs. unfold os_remove. rewrite Hs. now rewrite attempt_calm.
Qed.

Lemma os_rename_calm (src dst c m : string) (w : world) :
  faults w = [] -> stat directory src w = Some (File c) ->
  entry_of directory dst = Some m -> stat directory dst w <> Some Dir ->
  os_rename directory src dst w
  = (Return tt,
     put directory dst (File c)
       (drop directory src (add_trace (Ev (SRename src dst) true) w))).
Proof.
  intros Hf Hs Em Hd. unfold os_rename. rewrite Hs, Em.
  destruct (stat directory dst w) as [[c'|]|]; try contradiction;
    now rewrite attempt_calm.
Qed.

(** With no failure and regular files only, the scan returns. *)
Lemma scan_calm (temp : string) (h : option string) (names : list string)
    (w : world) :
  faults w = [] ->
  (forall n, In n names ->
     Path.join directory n = temp
     \/ exists c, stat directory (Path.join directory n) w = Some (File c)) ->
  exists dup w',
    scan directory temp h names w = (Return dup, w')
    /\ faults w' = [] /\ dir w' = dir w /\ stdout w' = stdout w.
Proof.
  revert w. induction names as [|n names IH]; intros w Hf Hall; simpl.
  - exists None, w. auto.
  - destruct (Hall n (or_introl eq_refl)) as [Et|[c Hc]].
    + rewrite Et, String.eqb_refl. simpl.
      apply IH; [exact Hf|]. intros m Hm. apply Hall. now right.
    + destruct (String.eqb (Path.join directory n) temp); simpl.
      * apply IH; [exact Hf|]. intros m Hm. apply Hall. now right.
      * unfold bind. rewrite (get_file_hash_calm _ c w Hf Hc).
        destruct (hash_eqb (Some (sha256 c)) h).
        -- eexists _, _. split; [reflexivity|]. auto.
        -- destruct (IH (add_trace (Ev (SOpenR (Path.join directory n)) true)
                           w)) as (dup & w' & E & F & D & O).
           ++ exact Hf.
           ++ intros m Hm. rewrite stat_add_trace. apply Hall. now right.
           ++ exists dup, w'. auto.
Qed.

(** The entry a scan returns is a listed file, other than the temporary
    one, of the digest that is looked for. *)
Lemma scan_some (temp f : string) (h : option string) (names : list string)
    (w w' : world) :
  scan directory temp h names w = (Return (Some f), w') ->
  In f names /\ Path.join directory f <> temp
  /\ (h = None
      \/ exists c, stat directory (Path.join directory f) w = Some (File c)
                   /\ h = Some (sha256 c)).
Proof.
  revert w. induction names as [|n names IH]; simpl; intros w H.
  - discriminate.
  - destruct (String.eqb (Path.join directory n) temp) eqn:Em; simpl in H.
    + apply IH in H as (Hin & Hne & Hm). auto.
    + unfold bind in H.
      destruct (get_file_hash directory (Path.join directory n) w)
        as [[h'|e] w1] eqn:Eg; [|discriminate].
      apply get_file_hash_inv in Eg as [Hd1 Hh].
      destruct (hash_eqb h' h) eqn:Eh.
      * inversion H; subst f w1.
        split; [now left|]. split; [now apply String.eqb_neq|].
        destruct Hh as [(c & Hs & ->)|[Hs ->]].
        -- right. exists c. split; [exact Hs|].
           destruct h as [x|]; [|discriminate].
           simpl in Eh. apply String.eqb_eq in Eh. now subst x.
        -- left. now destruct h.
      * apply IH in H as (Hin & Hne & Hm).
        split; [now right|]. split; [exact Hne|].
        destruct Hm as [Hm|(c & Hs & Hm)]; [now left|right].
        exists c. split; [|exact Hm]. unfold stat in *. now rewrite <- Hd1.
Qed.

(** With no failure and regular files only, the staging returns and leaves
    the body in the temporary file. *)
Lemma stage_calm (tpath tn data : string) (w : world) (l : listing) :
  faults w = [] -> dir w = Some l -> entry_of directory tpath = Some tn ->
  nameable directory tn ->
  all_files l -> relative_names l ->
  exists dup wa,
    stage directory tpath data w = (Return dup, wa)
    /\ faults wa = [] /\ stdout wa = stdout w
    /\ dir wa = Some (set_entry tn (File data)
                        (set_entry tn (File EmptyString) l)).
Proof.
  intros Hf Hd En Hnt Hfiles Hrel.
  pose proof (nameable_relative tn Hnt) as Hrt.
  assert (Etp : tpath = Path.dirprefix directory ++ tn)
    by now apply entry_of_inv.
  unfold stage, bind.
  rewrite (open_wb_calm tpath tn l w Hf Hd En); [|
    intros Hl; destruct (Hfiles _ _ Hl) as [c Hc]; discriminate|exact Hnt].
  set (w1 := put directory tpath (File EmptyString) _).
  assert (Hf1 : faults w1 = []) by (unfold w1; now rewrite faults_put).
  assert (Hd1 : dir w1 = Some (set_entry tn (File EmptyString) l))
    by (unfold w1; now apply dir_put).
  rewrite (file_write_calm tpath data w1 Hf1).
  set (w2 := put directory tpath (File data) _).
  assert (Hf2 : faults w2 = []) by (unfold w2; now rewrite faults_put).
  assert (Hd2 : dir w2 = Some (set_entry tn (File data)
                                 (set_entry tn (File EmptyString) l)))
    by (unfold w2; now apply dir_put).
  assert (Hs2 : stat directory tpath w2 = Some (File data))
    by (unfold w2; eapply stat_put_here; [exact En|exact Hd1]).
  rewrite (get_file_hash_calm tpath data w2 Hf2 Hs2).
  set (w3 := add_trace _ w2).
  rewrite (os_listdir_calm _ w3 Hf2 Hd2).
  set (w4 := add_trace _ w3).
  destruct (scan_calm tpath (Some (sha256 data))
              (map fst (set_entry tn (File data)
                          (set_entry tn (File EmptyString) l))) w4 Hf2)
    as (dup & wa & E & Fa & Da & Oa).
  - intros n Hin. apply lookup_in_names in Hin.
    destruct (string_dec n tn) as [->|N].
    + left. now rewrite join_relative, Etp.
    + right. rewrite !lookup_set_other in Hin by exact N.
      destruct (lookup n l) as [x|] eqn:Hl; [|contradiction].
      destruct (Hfiles _ _ Hl) as [c ->]. exists c.
      rewrite join_relative by (eapply Hrel; eauto).
      rewrite (stat_lookup n _ w4 Hd2).
      now rewrite !lookup_set_other by exact N.
  - exists dup, wa. split; [exact E|]. split; [exact Fa|].
    split; [|now rewrite Da].
    rewrite Oa. unfold w4, w3, w2. simpl. rewrite stdout_put. simpl.
    unfold w1. rewrite stdout_put. reflexivity.
Qed.

(** When the scan finds an entry, that entry is a listed file, other than
    the temporary one, whose digest is that of the body. *)
Lemma stage_some (tpath data f : string) (w wa : world) (l : listing) :
  dir w = Some l ->
  stage directory tpath data w = (Return (Some f), wa) ->
  exists tn,
    entry_of directory tpath = Some tn
    /\ In f (map fst (set_entry tn (File data)
                        (set_entry tn (File EmptyString) l)))
    /\ Path.join directory f <> tpath
    /\ exists c, stat directory (Path.join directory f) w = Some (File c)
                 /\ sha256 c = sha256 data.
Proof.
  intros Hd. unfold stage, bind.
  destruct (open_wb directory tpath w) as [[[]|e] w1] eqn:E1; [|discriminate].
  destruct (file_write directory tpath data w1) as [[[]|e] w2] eqn:E2;
    [|discriminate].
  destruct (get_file_hash directory tpath w2) as [[h|e] w3] eqn:E3;
    [|discriminate].
  destruct (os_listdir directory w3) as [[names|e] w4] eqn:E4; [|discriminate].
  intros E5.
  apply open_wb_ok in E1 as [-> (l0 & tn & Hd0 & En)].
  assert (l0 = l) by congruence. subst l0.
  apply file_write_ok in E2.
  set (wo := add_trace (Ev (SOpenW tpath) true) (pop w)) in *.
  assert (Hdo : dir wo = Some l) by (unfold wo; simpl; now rewrite dir_pop).
  set (w1 := put directory tpath (File EmptyString) wo) in *.
  assert (Hd1 : dir w1 = Some (set_entry tn (File EmptyString) l))
    by (apply dir_put; assumption).
  set (ww := add_trace (Ev (SWrite tpath data) true) (pop w1)) in *.
  assert (Hdw : dir ww = Some (set_entry tn (File EmptyString) l))
    by (unfold ww; simpl; now rewrite dir_pop).
  assert (Hs2 : stat directory tpath w2 = Some (File data))
    by (subst w2; eapply stat_put_here; eassumption).
  assert (Hd2 : dir w2 = Some (set_entry tn (File data)
                                 (set_entry tn (File EmptyString) l)))
    by (subst w2; apply dir_put; assumption).
  apply get_file_hash_inv in E3 as [Hd3 Hh].
  destruct Hh as [(c & Hc & ->)|[Hc _]]; [|congruence].
  assert (c = data) by congruence. subst c.
  apply os_listdir_ok in E4 as [Hd4 (l4 & Hl4 & ->)].
  apply scan_some in E5 as (Hin & Hne & Hm).
  exists tn. split; [exact En|].
  assert (l4 = set_entry tn (File data) (set_entry tn (File EmptyString) l))
    by congruence.
  subst l4. split; [exact Hin|]. split; [exact Hne|].
  destruct Hm as [Hm|(c & Hs & Hm)]; [discriminate|].
  exists c. split; [|congruence].
  rewrite (stat_same_dir _ w2 w4) in Hs by congruence.
  subst w2. rewrite stat_put_other in Hs by exact Hne.
  unfold ww in Hs. rewrite stat_add_trace, stat_pop in Hs.
  unfold w1 in Hs. rewrite stat_put_other in Hs by exact Hne.
  unfold wo in Hs. now rewrite stat_add_trace, stat_pop in Hs.
Qed.

Lemma evolves_calm (P : event -> Prop) (keep : string -> Prop)
    (w w' : world) :
  evolves directory P keep w w' -> faults w = [] -> faults w' = [].
Proof.
  intros (_ & _ & [k Hk] & _) Hf. rewrite Hk, Hf. apply skipn_nil.
Qed.

Lemma final_name_neq_temp (url : string) (t : datetime) :
  derive_filename url t <> derive_filename url t ++ ".tmp".
Proof.
  intros E. symmetry in E. revert E. apply append_nonempty_neq. discriminate.
Qed.

(** A first fetch of an image that the directory does not hold: with no
    failure, the image is stored under its final name. *)
Lemma fetch_fresh (url : string) (w : world) (r : response) :
  reaches_store url w = Some r -> faults w = [] ->
  all_files (entries w) -> relative_names (entries w) ->
  let fn := derive_filename url (now w) in
  let tn := fn ++ ".tmp" in
  nameable directory tn ->
  (forall n c, n <> tn -> lookup n (entries w) = Some (File c) ->
     sha256 c <> sha256 (content r)) ->
  exists w',
    fetch_and_save_image directory url w = (Return true, w')
    /\ faults w' = []
    /\ dir w' = Some (set_entry fn (File (content r))
                        (remove_entry tn (entries w))).
Proof.
  intros H Hf Hfiles Hrel fn tn Hname Hfresh.
  rewrite (fetch_late url w r H).
  unfold late, try_finally, try_except. rewrite store_image_split.
  unfold bind.
  destruct (at_store_spec url w r H) as (Hd1 & Hs1 & _ & Hev1).
  set (w1 := at_store directory url w) in *.
  set (fp := final_path_of directory url w).
  set (tp := temp_path_of directory url w).
  assert (Hf1 : faults w1 = []) by (eapply evolves_calm; eauto).
  assert (Etn : entry_of directory tp = Some tn).
  { unfold tp. rewrite temp_path_entry. apply entry_of_prefix. }
  assert (Efn : entry_of directory fp = Some fn).
  { unfold fp. rewrite final_path_entry. apply entry_of_prefix. }
  assert (Hrt : Str.starts_with_char "/" tn = false)
    by apply temp_name_relative.
  assert (Hnt : fn <> tn) by apply final_name_neq_temp.
  destruct (stage_calm tp tn (content r) w1 (entries w)
              Hf1 Hd1 Etn Hname Hfiles Hrel)
    as (dup & wa & Es & Fa & Oa & Da).
  rewrite Es. destruct dup as [f|].
  - exfalso.
    destruct (stage_some tp (content r) f w1 wa (entries w) Hd1 Es)
      as (tn' & En' & Hin & Hne & c & Hc & Hh).
    assert (tn' = tn) by congruence. subst tn'.
    apply lookup_in_names in Hin.
    assert (Hft : f <> tn).
    { intros ->. apply Hne. rewrite join_relative by exact Hrt.
      symmetry. now apply entry_of_inv. }
    rewrite !lookup_set_other in Hin by exact Hft.
    destruct (lookup f (entries w)) as [x|] eqn:Hl; [|contradiction].
    assert (Hrf : Str.starts_with_char "/" f = false)
      by (eapply Hrel; eauto).
    rewrite join_relative in Hc by exact Hrf.
    rewrite (stat_lookup f _ w1 Hd1), Hl in Hc. inversion Hc; subst x.
    exact (Hfresh f c Hft Hl Hh).
  - unfold settle, bind.
    assert (Hsa : stat directory tp wa = Some (File (content r))).
    { unfold stat. rewrite Da, Etn. apply lookup_set_same. }
    assert (Hnd : stat directory fp wa <> Some Dir).
    { unfold stat. rewrite Da, Efn.
      rewrite !lookup_set_other by exact Hnt.
      intros Hl. destruct (Hfiles _ _ Hl) as [c Hc]. discriminate. }
    rewrite (os_rename_calm tp fp (content r) fn wa Fa Hsa Efn Hnd).
    unfold print, ret. simpl.
    match goal with
    | |- context [cleanup directory tp ?w3] =>
        destruct (cleanup_spec tp w3) as (w' & Ec & Hc); rewrite Ec;
        assert (Hn3 : stat directory tp w3 = None)
    end.
    { rewrite !stat_add_stdout.
      rewrite stat_put_other by (intros E; apply (temp_path_neq_final url w);
                                 exact E).
      apply stat_drop_same. }
    destruct Hc as [[_ ->]|[Hn _]]; [|contradiction].
    eexists. split; [reflexivity|]. simpl.
    split; [now rewrite faults_put, faults_drop|].
    erewrite dir_put; [|exact Efn|eapply dir_drop; [exact Etn|exact Da]].
    now rewrite !remove_set_same.
Qed.

(** A fetch of an image that the directory holds already, under whatever
    name: with no failure, the scan finds a file of that digest, the
    temporary file is removed and nothing is stored. *)
Lemma fetch_known (url g c0 : string) (w : world)
    (r : response) (l : listing) :
  reaches_store url w = Some r -> faults w = [] -> dir w = Some l ->
  all_files l -> relative_names l ->
  let tn := derive_filename url (now w) ++ ".tmp" in
  nameable directory tn ->
  g <> tn -> lookup g l = Some (File c0) ->
  sha256 c0 = sha256 (content r) ->
  exists f c w',
    fetch_and_save_image directory url w = (Return false, w')
    /\ f <> tn /\ lookup f l = Some (File c)
    /\ sha256 c = sha256 (content r)
    /\ dir w' = Some (remove_entry tn l)
    /\ stdout w' = (stdout w ++ [("✗ Skipped " ++ url
                                  ++ ": Duplicate image found as " ++ f
                                  ++ ".")%string])%list.
Proof.
  intros H Hf Hd Hfiles Hrel tn Hname Hg Hlg Hcg.
  rewrite (fetch_late url w r H).
  unfold late, try_finally, try_except. rewrite store_image_split.
  unfold bind.
  destruct (at_store_spec url w r H) as (Hd1 & Hs1 & _ & Hev1).
  set (w1 := at_store directory url w) in *.
  set (fp := final_path_of directory url w).
  set (tp := temp_path_of directory url w).
  assert (El : entries w = l) by (unfold entries; now rewrite Hd).
  rewrite El in Hd1.
  assert (Hf1 : faults w1 = []) by (eapply evolves_calm; eauto).
  assert (Ho1 : stdout w1 = stdout w).
  { unfold w1, at_store, os_makedirs.
    rewrite attempt_calm by exact Hf. simpl. now rewrite Hd. }
  assert (Etn : entry_of directory tp = Some tn).
  { unfold tp. rewrite temp_path_entry. apply entry_of_prefix. }
  assert (Hrt : Str.starts_with_char "/" tn = false)
    by apply temp_name_relative.
  destruct (stage_calm tp tn (content r) w1 l Hf1 Hd1 Etn Hname Hfiles Hrel)
    as (dup & wa & Es & Fa & Oa & Da).
  rewrite Es. destruct dup as [f|].
  - destruct (stage_some tp (content r) f w1 wa l Hd1 Es)
      as (tn' & En' & Hin & Hne & c & Hc & Hh).
    assert (tn' = tn) by congruence. subst tn'.
    apply lookup_in_names in Hin.
    assert (Hft : f <> tn).
    { intros ->. apply Hne. rewrite join_relative by exact Hrt.
      symmetry. now apply entry_of_inv. }
    rewrite !lookup_set_other in Hin by exact Hft.
    destruct (lookup f l) as [x|] eqn:Hl; [|contradiction].
    assert (Hrf : Str.starts_with_char "/" f = false)
      by (eapply Hrel; eauto).
    rewrite join_relative in Hc by exact Hrf.
    rewrite (stat_lookup f _ w1 Hd1), Hl in Hc. inversion Hc; subst x.
    unfold settle, bind, print. simpl.
    assert (Hsa : stat directory tp wa = Some (File (content r))).
    { unfold stat. rewrite Da, Etn. apply lookup_set_same. }
    match goal with
    | |- context [os_remove directory tp ?wp] =>
        rewrite (os_remove_calm tp (content r) wp Fa Hsa)
    end.
    unfold ret. simpl.
    match goal with
    | |- context [cleanup directory tp ?w3] =>
        destruct (cleanup_spec tp w3) as (w' & Ec & Hcl); rewrite Ec;
        assert (Hn3 : stat directory tp w3 = None)
          by apply stat_drop_same
    end.
    destruct Hcl as [[_ ->]|[Hn _]]; [|contradiction].
    exists f, c. eexists. split; [reflexivity|]. simpl.
    split; [exact Hft|]. split; [exact Hl|]. split; [exact Hh|].
    split.
    { erewrite dir_drop; [|exact Etn|exact Da].
      now rewrite !remove_set_same. }
    rewrite stdout_drop. simpl. now rewrite Oa, Ho1.
  - exfalso.
    destruct (stage_none tp (content r) w1 wa l Hd1 Es) as (_ & _ & Hnm).
    assert (Hrg : Str.starts_with_char "/" g = false)
      by (eapply Hrel; eauto).
    apply (Hnm g c0); auto.
    + apply lookup_in_names. congruence.
    + rewrite join_relative by exact Hrg.
      unfold tp. rewrite temp_path_entry.
      intros E. apply append_inj_l in E. contradiction.
    + rewrite join_relative by exact Hrg.
      now rewrite (stat_lookup g l w1 Hd1).
Qed.

Lemma reaches_store_again (url : string) (w w1 : world) (r : response) :
  reaches_store url w = Some r -> http w1 = http w -> faults w1 = [] ->
  reaches_store url w1 = Some r.
Proof.
  unfold reaches_store. intros H Hh Hf. rewrite Hh, Hf.
  destruct (http w url) as [r'|e]; [|discriminate].
  destruct (_ || _); [discriminate|].
  now destruct (hd None (faults w)).
Qed.

(** C3: when a URL answers with an image of an allowed type that no file
    of the directory has the digest of, the directory holds regular files
    only, the temporary names can be borne and no call fails, a first fetch
    stores the image under its name and returns [True]; a second fetch of
    the same URL with the same bytes, at whatever later reading of the
    clock, finds the stored file by its digest and returns [False] with
    the duplicate message that names it; it stores nothing, and leaves the
    directory as the first fetch left it, but for a stale file at its own
    temporary name, which is gone; exactly one file has the digest. *)
Theorem fetch_twice_stores_once (url : string) (w : world) (r : response)
    (later : datetime) :
  reaches_store url w = Some r -> faults w = [] ->
  all_files (entries w) -> relative_names (entries w) ->
  let data := content r in
  let fn := derive_filename url (now w) in
  let tn := fn ++ ".tmp" in
  let tn2 := derive_filename url later ++ ".tmp" in
  nameable directory tn -> nameable directory tn2 ->
  (forall n c, n <> tn -> lookup n (entries w) = Some (File c) ->
     sha256 c <> sha256 data) ->
  exists w1 w2,
    fetch_and_save_image directory url w = (Return true, w1)
    /\ lookup fn (entries w1) = Some (File data)
    /\ (forall n c, lookup n (entries w1) = Some (File c) ->
          sha256 c = sha256 data -> n = fn)
    /\ lookup tn (entries w1) = None
    /\ fetch_and_save_image directory url (set_now later w1)
       = (Return false, w2)
    /\ dir w2 = Some (remove_entry tn2 (entries w1))
    /\ (lookup tn2 (entries w1) = None -> dir w2 = dir w1)
    /\ lookup tn2 (entries w2) = None
    /\ lookup fn (entries w2) = Some (File data)
    /\ (forall n c, lookup n (entries w2) = Some (File c) ->
          sha256 c = sha256 data -> n = fn)
    /\ stdout w2 = (stdout w1 ++ [("✗ Skipped " ++ url
                                   ++ ": Duplicate image found as " ++ fn
                                   ++ ".")%string])%list.
Proof.
  intros H Hf Hfiles Hrel data fn tn tn2 Hname Hname2 Hfresh.
  destruct (fetch_fresh url w r H Hf Hfiles Hrel Hname Hfresh)
    as (w1 & E1 & F1 & D1).
  fold fn tn data in D1.
  destruct (fetch_late_spec url w r H)
    as (b & w' & evs & E & _ & (Hh & Hn & _) & _).
  rewrite E1 in E. inversion E; subst b w'. clear E.
  set (l1 := set_entry fn (File data) (remove_entry tn (entries w))) in *.
  assert (Hnt : fn <> tn) by apply final_name_neq_temp.
  assert (Hnt2 : fn <> tn2) by apply kept_name_not_tmp, derived_name_kept.
  assert (E1l : entries w1 = l1) by (unfold entries; now rewrite D1).
  assert (Hfn1 : lookup fn l1 = Some (File data))
    by apply lookup_set_same.
  assert (Htn1 : lookup tn l1 = None).
  { unfold l1. rewrite lookup_set_other by auto. apply lookup_remove_same. }
  assert (Hold : forall n, n <> fn -> n <> tn ->
                   lookup n l1 = lookup n (entries w)).
  { intros n N1 N2. unfold l1.
    now rewrite lookup_set_other, lookup_remove_other by assumption. }
  assert (Hone : forall n c, lookup n l1 = Some (File c) ->
                   sha256 c = sha256 data -> n = fn).
  { intros n c Hl Hc.
    destruct (string_dec n fn) as [->|N1]; [reflexivity|].
    destruct (string_dec n tn) as [->|N2]; [congruence|].
    rewrite Hold in Hl by assumption.
    exfalso. exact (Hfresh n c N2 Hl Hc). }
  assert (Hfiles1 : all_files l1).
  { intros n x Hl.
    destruct (string_dec n fn) as [->|N1]; [exists data; congruence|].
    destruct (string_dec n tn) as [->|N2]; [congruence|].
    rewrite Hold in Hl by assumption. eapply Hfiles; eauto. }
  assert (Hrel1 : relative_names l1).
  { intros n x Hl.
    destruct (string_dec n fn) as [->|N1];
      [apply derive_filename_relative|].
    destruct (string_dec n tn) as [->|N2]; [congruence|].
    rewrite Hold in Hl by assumption. eapply Hrel; eauto. }
  assert (H1 : reaches_store url (set_now later w1) = Some r)
    by (eapply reaches_store_again; [exact H|exact Hh|exact F1]).
  destruct (fetch_known url fn data (set_now later w1) r l1
              H1 F1 D1 Hfiles1 Hrel1 Hname2 Hnt2 Hfn1 eq_refl)
    as (f & c & w2 & E2 & Hf2 & Hl2 & Hc2 & D2 & O2).
  assert (f = fn) by (eapply Hone; eauto). subst f.
  assert (E2l : entries w2 = remove_entry tn2 l1)
    by (unfold entries; now rewrite D2).
  exists w1, w2. rewrite E1l, E2l.
  split; [exact E1|]. split; [exact Hfn1|]. split; [exact Hone|].
  split; [exact Htn1|]. split; [exact E2|]. split; [exact D2|].
  split; [intros Ha; now rewrite D2, D1, remove_absent|].
  split; [apply lookup_remove_same|].
  split; [now rewrite lookup_remove_other|].
  split; [|exact O2].
  intros n c' Hl Hc'.
  destruct (string_dec n tn2) as [->|N];
    [now rewrite lookup_remove_same in Hl|].
  rewrite lookup_remove_other in Hl by exact N. eauto.
Qed.

(** ** A path that names nothing *)

(** C10: for the path of an entry that the directory does not hold, the
    name being one that an entry can bear and the opening meeting no other
    failure, [get_file_hash] returns [None] and raises nothing; so an
    entry that was listed and is gone when the scan comes to it gives
    [None], which is not the digest of the new file, and the scan goes on
    with the next entry. *)
Theorem get_file_hash_missing (n : string) (l : listing) (w : world) :
  nameable directory n -> dir w = Some l -> lookup n l = None ->
  hd None (faults w) = None ->
  let path := Path.join directory n in
  get_file_hash directory path w
  = (Return None, add_trace (Ev (SOpenR path) false) (pop w))
  /\ forall temp h rest,
       hash_eqb None (Some h) = false
       /\ exists w',
            dir w' = dir w
            /\ scan directory temp (Some h) (n :: rest) w
               = scan directory temp (Some h) rest w'.
Proof.
  intros Hn Hd Hl Hf path.
  assert (Ep : path = Path.dirprefix directory ++ n)
    by (apply join_relative; now apply nameable_relative).
  assert (Hs : stat directory path w = None).
  { rewrite Ep, stat_entries. unfold entries. now rewrite Hd. }
  assert (Hz : Path.has_nul path = false) by apply Hn.
  assert (Hg : get_file_hash directory path w
               = (Return None, add_trace (Ev (SOpenR path) false) (pop w))).
  { unfold get_file_hash, try_except, bind, read_file, no_entry.
    rewrite Hs, Hz. unfold fail_with, next_fault, bind, log, raise.
    rewrite Hf, Ep, path_error_nameable by exact Hn. reflexivity. }
  split; [exact Hg|].
  intros temp h rest. split; [reflexivity|].
  simpl. fold path.
  destruct (String.eqb path temp); simpl.
  - exists w. auto.
  - unfold bind. rewrite Hg. simpl.
    exists (add_trace (Ev (SOpenR path) false) (pop w)).
    split; [simpl; apply dir_pop|reflexivity].
Qed.

(** A path that names a directory is another matter: the error of the
    opening is no [FileNotFoundError] and goes through. *)
Lemma get_file_hash_directory (path : string) (w : world) :
  stat directory path w = Some Dir ->
  exists e, fst (get_file_hash directory path w) = Raise e
            /\ class_of e = IsADirectoryError.
Proof.
  intros Hs. unfold get_file_hash, try_except, bind, read_file.
  rewrite Hs. simpl. eauto.
Qed.

(** ** Beyond the claims: the exits before line 62 *)

(** [X1] Whenever the request raises, the status is an error, the content
    type is not allowed or [os.makedirs] fails, the call raises
    [UnboundLocalError] for [temp_path]; it leaves the directory as it was
    and has made no other call than the request and [os.makedirs]. *)
Theorem exits_before_line_62_raise (url : string) (w : world) :
  (exists e, http w url = Raise e)
  \/ (exists r, http w url = Return r
        /\ (400 <= status_code r < 600
            \/ is_valid_image (declared_type r) = false
            \/ exists x, hd None (faults w) = Some x)) ->
  exists w' evs,
    fetch_and_save_image directory url w = (Raise (unbound "temp_path"), w')
    /\ dir w' = dir w
    /\ trace w' = (trace w ++ evs)%list
    /\ Forall (early_call directory url) evs.
Proof.
  intros H.
  assert (Hr : reaches_store url w = None).
  { unfold reaches_store.
    destruct H as [[e ->]|(r & -> & [[H1 H2]|[Hv|[x Hx]]])];
      [reflexivity| | |].
    - unfold is_http_error.
      apply Nat.leb_le in H1. apply Nat.ltb_lt in H2. now rewrite H1, H2.
    - rewrite Hv. simpl. now rewrite orb_true_r.
    - rewrite Hx. now destruct (_ || _). }
  destruct (fetch_early url w Hr) as (w' & E & Hd & Hev).
  destruct (evolves_events _ _ _ _ Hev) as (evs & Ht & Hq).
  exists w', evs. auto.
Qed.

(** ** Beyond the claims: what a call leaves alone *)

(** [X2] Whatever happens in a call, including any failure of a system
    call, the entries of the directory other than its final name and its
    temporary name are what they were. *)
Theorem other_entries_untouched (url n : string) (w : world) :
  n <> derive_filename url (now w) ->
  n <> derive_filename url (now w) ++ ".tmp" ->
  lookup n (entries (snd (fetch_and_save_image directory url w)))
  = lookup n (entries w).
Proof.
  intros N1 N2.
  destruct (reaches_store url w) as [r|] eqn:Hr.
  - destruct (fetch_late_spec url w r Hr)
      as (b & w' & evs & E & _ & Hev & _).
    rewrite E. simpl. rewrite <- !stat_entries.
    eapply evolves_keep; [exact Hev|]. simpl.
    rewrite temp_path_entry, final_path_entry.
    split; intros Eq; apply append_inj_l in Eq; contradiction.
  - destruct (fetch_early url w Hr) as (w' & E & Hd & _).
    rewrite E. simpl. unfold entries. now rewrite Hd.
Qed.

(** ** Beyond the claims: a subdirectory in the target directory *)

Lemma scan_none_regular (temp : string) (h : option string)
    (names : list string) (w w' : world) :
  scan directory temp h names w = (Return None, w') ->
  forall n, In n names -> Path.join directory n <> temp ->
    stat directory (Path.join directory n) w <> Some Dir.
Proof.
  revert w. induction names as [|m names IH]; simpl; intros w H n Hin Hne.
  - contradiction.
  - destruct (String.eqb (Path.join directory m) temp) eqn:Em; simpl in H.
    + destruct Hin as [->|Hin]; [|now apply (IH w H)].
      apply String.eqb_eq in Em. contradiction.
    + unfold bind in H.
      destruct (get_file_hash directory (Path.join directory m) w)
        as [[h'|e] w1] eqn:Eg; [|discriminate].
      apply get_file_hash_inv in Eg as [Hd1 Hh].
      destruct (hash_eqb h' h); [discriminate|].
      destruct Hin as [->|Hin].
      * destruct Hh as [(c & Hs & _)|[Hs _]]; congruence.
      * rewrite <- (stat_same_dir _ w w1 Hd1). now apply (IH w1 H).
Qed.

(** The staging up to the scan: the temporary file is written, the other
    paths name what they named, and the names that are scanned are those of
    the listing. *)
Lemma stage_inv (tpath data : string) (dup : option string) (w wa : world)
    (l : listing) :
  dir w = Some l ->
  stage directory tpath data w = (Return dup, wa) ->
  exists tn w4,
    entry_of directory tpath = Some tn
    /\ (forall p, p <> tpath -> stat directory p w4 = stat directory p w)
    /\ scan directory tpath (Some (sha256 data))
         (map fst (set_entry tn (File data)
                     (set_entry tn (File EmptyString) l))) w4
       = (Return dup, wa).
Proof.
  intros Hd. unfold stage, bind.
  destruct (open_wb directory tpath w) as [[[]|e] w1] eqn:E1; [|discriminate].
  destruct (file_write directory tpath data w1) as [[[]|e] w2] eqn:E2;
    [|discriminate].
  destruct (get_file_hash directory tpath w2) as [[h|e] w3] eqn:E3;
    [|discriminate].
  destruct (os_listdir directory w3) as [[names|e] w4] eqn:E4; [|discriminate].
  intros E5.
  apply open_wb_ok in E1 as [-> (l0 & tn & Hd0 & En)].
  assert (l0 = l) by congruence. subst l0.
  apply file_write_ok in E2.
  set (wo := add_trace (Ev (SOpenW tpath) true) (pop w)) in *.
  assert (Hdo : dir wo = Some l) by (unfold wo; simpl; now rewrite dir_pop).
  set (w1 := put directory tpath (File EmptyString) wo) in *.
  assert (Hd1 : dir w1 = Some (set_entry tn (File EmptyString) l))
    by (apply dir_put; assumption).
  set (ww := add_trace (Ev (SWrite tpath data) true) (pop w1)) in *.
  assert (Hdw : dir ww = Some (set_entry tn (File EmptyString) l))
    by (unfold ww; simpl; now rewrite dir_pop).
  assert (Hs2 : stat directory tpath w2 = Some (File data))
    by (subst w2; eapply stat_put_here; eassumption).
  assert (Hd2 : dir w2 = Some (set_entry tn (File data)
                                 (set_entry tn (File EmptyString) l)))
    by (subst w2; apply dir_put; assumption).
  apply get_file_hash_inv in E3 as [Hd3 Hh].
  destruct Hh as [(c & Hc & ->)|[Hc _]]; [|congruence].
  assert (c = data) by congruence. subst c.
  apply os_listdir_ok in E4 as [Hd4 (l4 & Hl4 & ->)].
  assert (l4 = set_entry tn (File data) (set_entry tn (File EmptyString) l))
    by congruence.
  subst l4. exists tn, w4. split; [exact En|]. split; [|exact E5].
  intros p Hp. rewrite (stat_same_dir p w2 w4) by congruence.
  subst w2. rewrite stat_put_other by exact Hp.
  unfold ww. rewrite stat_add_trace, stat_pop.
  unfold w1. rewrite stat_put_other by exact Hp.
  unfold wo. now rewrite stat_add_trace, stat_pop.
Qed.

(** A call returns [True] only after a staging whose scan found nothing. *)
Lemma fetch_true_inv (url : string) (w w' : world) :
  fetch_and_save_image directory url w = (Return true, w') ->
  exists r wa,
    reaches_store url w = Some r
    /\ stage directory (temp_path_of directory url w) (content r)
         (at_store directory url w) = (Return None, wa).
Proof.
  intros H. destruct (reaches_store url w) as [r|] eqn:Hr.
  - exists r. rewrite (fetch_late url w r Hr) in H. revert H.
    unfold late, try_finally, try_except. rewrite store_image_split.
    unfold bind.
    destruct (stage directory (temp_path_of directory url w) (content r)
                (at_store directory url w)) as [[[f|]|e] wa] eqn:Es.
    + unfold settle, bind, print.
      match goal with
      | |- context [os_remove directory ?p ?wp] =>
          destruct (os_remove directory p wp) as [[[]|e] wb]
      end; unfold report, bind, print, ret; simpl;
        match goal with
        | |- context [cleanup directory ?p ?w3] =>
            destruct (cleanup_spec p w3) as (w4 & Ec & _); rewrite Ec
        end; discriminate.
    + intros _. now exists wa.
    + unfold report, bind, print, ret. simpl.
      match goal with
      | |- context [cleanup directory ?p ?w3] =>
          destruct (cleanup_spec p w3) as (w4 & Ec & _); rewrite Ec
      end. discriminate.
  - destruct (fetch_early url w Hr) as (w2 & E & _). congruence.
Qed.

(** [X3] While the target directory holds a subdirectory, no call returns
    [True] and none writes its final path, whatever the URL answers and
    whichever system calls fail: the scan hashes every entry and the
    opening of a directory is an error that [get_file_hash] lets through. *)
Theorem subdirectory_blocks_storing (url n : string) (w : world) :
  lookup n (entries w) = Some Dir ->
  Str.starts_with_char "/" n = false ->
  n <> derive_filename url (now w) ++ ".tmp" ->
  fst (fetch_and_save_image directory url w) <> Return true
  /\ stat directory (final_path_of directory url w)
       (snd (fetch_and_save_image directory url w))
     = stat directory (final_path_of directory url w) w.
Proof.
  intros Hl Hrel Hn.
  assert (Hnot : fst (fetch_and_save_image directory url w) <> Return true).
  { destruct (fetch_and_save_image directory url w) as [res w'] eqn:E.
    simpl. intros ->.
    destruct (fetch_true_inv url w w' E) as (r & wa & Hr & Es).
    destruct (at_store_spec url w r Hr) as (Hd1 & Hs1 & _).
    destruct (stage_inv _ _ _ _ _ _ Hd1 Es) as (tn & w4 & En & Hk & Esc).
    assert (Etn : tn = derive_filename url (now w) ++ ".tmp").
    { rewrite temp_path_entry, entry_of_prefix in En. congruence. }
    assert (Hne : Path.join directory n <> temp_path_of directory url w).
    { rewrite join_relative, temp_path_entry by exact Hrel.
      intros Eq. apply append_inj_l in Eq. contradiction. }
    apply (scan_none_regular _ _ _ _ _ Esc n).
    - apply in_names_set, in_names_set, lookup_in_names. congruence.
    - exact Hne.
    - rewrite (Hk _ Hne), Hs1, join_relative by exact Hrel.
      now rewrite stat_entries. }
  split; [exact Hnot|].
  destruct (reaches_store url w) as [r|] eqn:Hr.
  - destruct (fetch_late_spec url w r Hr)
      as (b & w' & evs & E & _ & _ & _ & Hcase).
    rewrite E in *. simpl in *.
    destruct Hcase as [(_ & _ & Hf)|(ok & _ & _ & _ & _ & _ & _ & _ & -> & Hok)].
    + exact Hf.
    + destruct ok; [contradiction|exact Hok].
  - destruct (fetch_early url w Hr) as (w' & E & Hd & _).
    rewrite E. simpl. now apply stat_same_dir.
Qed.

(** ** Beyond the claims: an image stored under another name *)

(** [X4] When the URL answers with an image of an allowed type, no call
    fails, the directory holds regular files only, the temporary name of
    the fetch can be borne, and some file of the directory, under whatever
    name but that temporary one, has the digest of the body, the fetch
    returns [False], names in its message a file of that digest other than
    the temporary one, stores nothing, and leaves the directory as it was
    but for a stale file at its temporary name, which is gone. *)
Theorem known_image_is_skipped (url g c0 : string) (w : world)
    (r : response) (l : listing) :
  reaches_store url w = Some r -> faults w = [] -> dir w = Some l ->
  all_files l -> relative_names l ->
  let tn := derive_filename url (now w) ++ ".tmp" in
  nameable directory tn ->
  g <> tn -> lookup g l = Some (File c0) ->
  sha256 c0 = sha256 (content r) ->
  exists f c w',
    fetch_and_save_image directory url w = (Return false, w')
    /\ f <> tn /\ lookup f l = Some (File c)
    /\ sha256 c = sha256 (content r)
    /\ dir w' = Some (remove_entry tn l)
    /\ stdout w' = (stdout w ++ [("✗ Skipped " ++ url
                                  ++ ": Duplicate image found as " ++ f
                                  ++ ".")%string])%list.
Proof. exact (fetch_known url g c0 w r l). Qed.

(** ** Beyond the claims: two images under one name *)

(** [X5] When two URLs lead to the same file name, be it the same base
    name or a name made from the same second of the clock, and answer with
    different images of an allowed type that no file of the directory has
    the digest of, the directory holds regular files only, the temporary
    name can be borne and no call fails, both fetches return [True], and
    after the second one the file of that name holds the second image and
    no file holds the first. *)
Theorem same_name_overwrites (url1 url2 : string) (w : world)
    (r1 r2 : response) :
  reaches_store url1 w = Some r1 -> reaches_store url2 w = Some r2 ->
  faults w = [] -> all_files (entries w) -> relative_names (entries w) ->
  let fn := derive_filename url1 (now w) in
  let tn := fn ++ ".tmp" in
  nameable directory tn ->
  derive_filename url2 (now w) = fn ->
  sha256 (content r1) <> sha256 (content r2) ->
  (forall n c, n <> tn -> lookup n (entries w) = Some (File c) ->
     sha256 c <> sha256 (content r1) /\ sha256 c <> sha256 (content r2)) ->
  exists w1 w2,
    fetch_and_save_image directory url1 w = (Return true, w1)
    /\ lookup fn (entries w1) = Some (File (content r1))
    /\ fetch_and_save_image directory url2 w1 = (Return true, w2)
    /\ lookup fn (entries w2) = Some (File (content r2))
    /\ forall n c, lookup n (entries w2) = Some (File c) ->
         sha256 c <> sha256 (content r1).
Proof.
  intros H1 H2 Hf Hfiles Hrel fn tn Hname Hsame Hdiff Hfresh.
  destruct (fetch_fresh url1 w r1 H1 Hf Hfiles Hrel Hname)
    as (w1 & E1 & F1 & D1).
  { intros n c N Hl. now apply (Hfresh n c N Hl). }
  fold fn tn in D1.
  destruct (fetch_late_spec url1 w r1 H1)
    as (b & w' & evs & E & _ & (Hh & Hn & _) & _).
  rewrite E1 in E. inversion E; subst b w'. clear E.
  set (l1 := set_entry fn (File (content r1))
               (remove_entry tn (entries w))) in *.
  assert (Hnt : fn <> tn) by apply final_name_neq_temp.
  assert (E1l : entries w1 = l1) by (unfold entries; now rewrite D1).
  assert (Hold : forall n, n <> fn -> n <> tn ->
                   lookup n l1 = lookup n (entries w)).
  { intros n N1 N2. unfold l1.
    now rewrite lookup_set_other, lookup_remove_other by assumption. }
  assert (Hfn1 : lookup fn l1 = Some (File (content r1)))
    by apply lookup_set_same.
  assert (Htn1 : lookup tn l1 = None).
  { unfold l1. rewrite lookup_set_other by auto. apply lookup_remove_same. }
  assert (Hfiles1 : all_files (entries w1)).
  { rewrite E1l. intros n x Hl.
    destruct (string_dec n fn) as [->|N1];
      [exists (content r1); congruence|].
    destruct (string_dec n tn) as [->|N2]; [congruence|].
    rewrite Hold in Hl by assumption. eapply Hfiles; eauto. }
  assert (Hrel1 : relative_names (entries w1)).
  { rewrite E1l. intros n x Hl.
    destruct (string_dec n fn) as [->|N1];
      [apply derive_filename_relative|].
    destruct (string_dec n tn) as [->|N2]; [congruence|].
    rewrite Hold in Hl by assumption. eapply Hrel; eauto. }
  assert (H2' : reaches_store url2 w1 = Some r2)
    by (eapply reaches_store_again; eauto).
  destruct (fetch_fresh url2 w1 r2 H2' F1 Hfiles1 Hrel1)
    as (w2 & E2 & F2 & D2).
  { rewrite Hn, Hsame. exact Hname. }
  { rewrite Hn, Hsame. fold tn. rewrite E1l. intros n c N Hl.
    destruct (string_dec n fn) as [->|N1].
    - rewrite Hfn1 in Hl. inversion Hl; subst c. exact Hdiff.
    - rewrite Hold in Hl by assumption. now apply (Hfresh n c N Hl). }
  rewrite Hn, Hsame, E1l in D2. fold tn in D2.
  exists w1, w2. rewrite E1l.
  assert (E2l : entries w2
                = set_entry fn (File (content r2)) (remove_entry tn l1))
    by (unfold entries; now rewrite D2).
  rewrite E2l.
  split; [exact E1|]. split; [exact Hfn1|]. split; [exact E2|].
  split; [apply lookup_set_same|].
  intros n c Hl.
  destruct (string_dec n fn) as [->|N1].
  - rewrite lookup_set_same in Hl. inversion Hl; subst c.
    intros Eq. now apply Hdiff.
  - rewrite lookup_set_other in Hl by exact N1.
    destruct (string_dec n tn) as [->|N2];
      [now rewrite lookup_remove_same in Hl|].
    rewrite lookup_remove_other, Hold in Hl by assumption.
    now apply (Hfresh n c N2 Hl).
Qed.

(** ** Beyond the claims: one request for each call *)

Lemma requests_of_app (a b : list event) :
  requests_of (a ++ b) = (requests_of a ++ requests_of b)%list.
Proof.
  induction a as [|[c ok] a IH]; simpl; [reflexivity|].
  destruct c; simpl; now rewrite IH.
Qed.

Lemma requests_of_none (evs : list event) :
  Forall no_request evs -> requests_of evs = [].
Proof.
  induction 1 as [|[c ok] evs Hc _ IH]; simpl; [reflexivity|].
  destruct c; simpl in *; [contradiction|exact IH..].
Qed.

Lemma preserves_late_no_request (url : string) (r : response) (w : world) :
  preserves (evolves directory no_request (fun _ => False))
    (late directory url r w).
Proof.
  unfold late.
  apply preserves_try_finally;
    [|apply preserves_cleanup; simpl; auto].
  apply preserves_try_except; [|intros e; apply preserves_report].
  unfold store_image.
  apply preserves_bind; [apply preserves_open_wb; simpl; auto|intros _].
  apply preserves_bind; [apply preserves_file_write; simpl; auto|intros _].
  apply preserves_bind; [apply preserves_get_file_hash; simpl; auto|intros h].
  apply preserves_bind; [apply preserves_listdir; simpl; auto|intros names].
  apply preserves_bind; [apply preserves_scan; simpl; auto|intros dup].
  destruct dup as [f|].
  - apply preserves_bind; [apply preserves_print|intros _].
    apply preserves_bind; [|intros _; apply preserves_ret].
    apply preserves_remove; simpl; auto.
  - apply preserves_bind; [apply preserves_rename; simpl; auto|intros _].
    apply preserves_bind; [apply preserves_print|intros _].
    apply preserves_bind; [apply preserves_print|intros _].
    apply preserves_ret.
Qed.

Lemma fetch_early_requests (url : string) (w : world) :
  reaches_store url w = None ->
  exists ok evs,
    trace (snd (fetch_and_save_image directory url w))
    = (trace w ++ Ev (SGet url) ok :: evs)%list
    /\ Forall no_request evs.
Proof.
  unfold reaches_store. intros H.
  unfold fetch_and_save_image, try_finally, try_except, fetch_body, bind,
    lift, requests_get. simpl.
  destruct (http w url) as [r|e] eqn:Hh; simpl.
  - unfold raise_for_status.
    destruct (is_http_error r) eqn:He; simpl.
    + exists true, []. split; [reflexivity|constructor].
    + destruct (is_valid_image (declared_type r)) eqn:Hv; simpl.
      * simpl in H. unfold os_makedirs, attempt, next_fault, bind. simpl.
        destruct (hd None (faults w)) as [x|] eqn:Hf; [|discriminate].
        destruct x; simpl; exists true, [Ev (SMakedirs directory) false];
          (split; [rewrite trace_pop; simpl; now rewrite <- app_assoc|]);
          repeat constructor.
      * exists true, []. split; [reflexivity|constructor].
  - destruct e as [c msg]; destruct c; simpl;
      exists false, []; (split; [reflexivity|constructor]).
Qed.

Lemma fetch_requests_once (url : string) (w : world) :
  exists ok evs,
    trace (snd (fetch_and_save_image directory url w))
    = (trace w ++ Ev (SGet url) ok :: evs)%list
    /\ requests_of evs = [].
Proof.
  destruct (reaches_store url w) as [r|] eqn:Hr.
  - rewrite (fetch_late url w r Hr).
    destruct (at_store_spec url w r Hr) as (_ & _ & Ht1 & _).
    pose proof (preserves_late_no_request url r w
                  (at_store directory url w)) as Hev.
    destruct (evolves_events _ _ _ _ Hev) as (evs & Ht & Hq).
    exists true, (Ev (SMakedirs directory) true :: evs).
    split.
    + rewrite Ht, Ht1. now rewrite <- app_assoc.
    + simpl. now apply requests_of_none.
  - destruct (fetch_early_requests url w Hr) as (ok & evs & Ht & Hq).
    exists ok, evs. split; [exact Ht|now apply requests_of_none].
Qed.

(** [X6] Every call makes exactly one request, for its own URL and before
    any other system call, whatever happens afterwards: there is no retry
    and no second request. *)
Theorem one_request_per_call (url : string) (w : world) :
  exists ok evs,
    trace (snd (fetch_and_save_image directory url w))
    = (trace w ++ Ev (SGet url) ok :: evs)%list
    /\ requests_of evs = [].
Proof. apply fetch_requests_once. Qed.

(** ** Beyond the claims: the scan stops at its first result *)

(** [X14] The scan looks at the entries in the order of the listing and
    stops at the first one whose digest matches, or at the first error:
    the entries listed after it are not opened, whatever they are. *)
Theorem scan_stops_at_first_result (temp : string) (h : option string)
    (names later : list string) (w w' : world) (res : outcome (option string)) :
  scan directory temp h names w = (res, w') ->
  res <> Return None ->
  scan directory temp h (names ++ later) w = (res, w').
Proof.
  revert w. induction names as [|n names IH]; simpl; intros w H Hres.
  - inversion H; subst. contradiction.
  - destruct (negb (String.eqb (Path.join directory n) temp));
      [|now apply IH].
    unfold bind in *.
    destruct (get_file_hash directory (Path.join directory n) w)
      as [[h'|e] w1]; [|exact H].
    destruct (hash_eqb h' h); [exact H|now apply IH].
Qed.

End Directory.

(** ** The summary of a batch *)

Lemma count_successes_returns {St} (bs : list bool) (s : St) :
  count_successes (map Return bs) s = (Return (successes_of bs), s).
Proof.
  induction bs as [|b bs IH]; simpl; [reflexivity|].
  unfold bind. rewrite IH. unfold ret. now destruct b.
Qed.

(** C8, as amended: after the calls of a non-empty batch have all
    returned, one summary line is printed: with one success or more, the
    encouragement with [<successes>/<total>]; with none, the fixed failure
    message, which carries no count. *)
Theorem summary_of_a_batch (urls : list string) (bs : list bool)
    (w w' : world) :
  urls <> [] ->
  executor_map urls w = (Return (map Return bs), w') ->
  run_batch urls w
  = (Return tt,
     add_stdout
       (if (0 <? successes_of bs)%nat
        then enriched_line (successes_of bs) (length urls)
        else failed_line) w')
  /\ Str.contains
       (str_of_nat (successes_of bs) ++ "/" ++ str_of_nat (length urls))
       (enriched_line (successes_of bs) (length urls)) = true
  /\ Str.contains "/" failed_line = false.
Proof.
  intros Hne He. split; [|split; [|reflexivity]].
  - destruct urls as [|u urls]; [contradiction|].
    unfold run_batch, bind. rewrite He.
    unfold summarize, bind. rewrite count_successes_returns.
    unfold print, enriched_line, failed_line.
    now destruct (0 <? successes_of bs)%nat.
  - assert (E : enriched_line (successes_of bs) (length urls)
                = (newline ++ "Connection strengthened. Community enriched. (")
                  ++ (str_of_nat (successes_of bs) ++ "/"
                      ++ str_of_nat (length urls))
                  ++ " images fetched successfully)").
    { unfold enriched_line. now rewrite !append_assoc. }
    rewrite E. apply contains_middle.
Qed.

(** ** Beyond the claims: the names that are stored *)

(** [X7] The name a fetch stores under is never empty, never starts with
    a slash and always ends, letter case apart, with one of the five image
    suffixes, whatever the URL and the clock; so the temporary name, which
    ends with [.tmp], is never the final name of any fetch. *)
Theorem stored_name_is_an_image_name (url : string) (t : datetime) :
  let name := derive_filename url t in
  name <> EmptyString
  /\ Str.starts_with_char "/" name = false
  /\ In (Str.lower (extension name)) image_suffixes
  /\ forall url' t', derive_filename url' t' <> name ++ ".tmp".
Proof.
  clear sha256.
  assert (Hk : forall u d,
             derive_filename u d <> EmptyString
             /\ In (Str.lower (extension (derive_filename u d)))
                  image_suffixes).
  { intros u d. apply keeps_name_spec.
    unfold derive_filename, choose_filename.
    destruct (keeps_name (Path.basename (urlparse_path u))) eqn:K;
      [exact K|].
    unfold keeps_name. apply andb_true_iff. split; [reflexivity|].
    change ("image_" ++ strftime d ++ ".jpg")
      with (("image_" ++ strftime d) ++ ".jpg").
    unfold Str.endswith_any, image_suffixes.
    cbn [existsb]. rewrite lower_app.
    change (Str.lower ".jpg") with ".jpg".
    now rewrite endswith_app. }
  intros name. destruct (Hk url t) as [Hne Hin].
  split; [exact Hne|]. split; [apply derive_filename_relative|].
  split; [exact Hin|].
  intros url' t' E. destruct (Hk url' t') as [_ Hin'].
  rewrite E in Hin'. revert Hin'.
  assert (Ex : forall a, extension (a ++ ".tmp") = ".tmp").
  { clear. induction a as [|c a IH]; [reflexivity|].
    cbn [append extension]. rewrite IH.
    assert (Hc : Str.contains_char "." (a ++ ".tmp") = true).
    { clear. induction a as [|c a IH]; [reflexivity|].
      cbn [append Str.contains_char]. rewrite IH. apply orb_true_r. }
    now rewrite Hc. }
  rewrite Ex. simpl. intuition discriminate.
Qed.

(** ** Beyond the claims: the reading of the URLs *)

Lemma read_urls_blank {St} (lines : list string) (line : string)
    (rest acc : list string) (s : St) :
  Forall (fun l => ~ blank l) lines -> blank line ->
  read_urls (lines ++ line :: rest) acc s
  = (Return (acc ++ map Str.strip lines)%list, s).
Proof.
  intros Hl Hb. revert acc.
  induction Hl as [|l lines Hn _ IH]; intros acc; simpl.
  - unfold blank in Hb. rewrite Hb. simpl. now rewrite app_nil_r.
  - destruct (String.eqb (Str.strip l) EmptyString) eqn:E.
    + apply String.eqb_eq in E. contradiction.
    + rewrite IH. now rewrite <- app_assoc.
Qed.

Lemma read_urls_eof {St} (lines acc : list string) (s : St) :
  Forall (fun l => ~ blank l) lines ->
  read_urls lines acc s = (Raise (mkExn EOFError "EOF when reading a line"), s).
Proof.
  intros Hl. revert acc.
  induction Hl as [|l lines Hn _ IH]; intros acc; simpl.
  - reflexivity.
  - destruct (String.eqb (Str.strip l) EmptyString) eqn:E.
    + apply String.eqb_eq in E. contradiction.
    + apply IH.
Qed.

(** [X8] The URLs of a batch are the lines typed before the first line
    that is empty or white space only, each without its leading and
    trailing white space, in the order typed; whatever follows that line
    is not read.  White space is that of [str.strip], ASCII or not: a URL
    between a no-break space and an ideographic space loses both and keeps
    the blank inside it, and a line of such spaces ends the input, while a
    letter that shares a byte with the no-break space stays. *)
Theorem urls_are_the_lines_before_the_blank {St} (lines : list string)
    (line : string) (rest : list string) (s : St) :
  Forall (fun l => ~ blank l) lines -> blank line ->
  read_urls (lines ++ line :: rest) [] s = (Return (map Str.strip lines), s)
  /\ Str.strip (nbsp ++ " http://site/a b.png" ++ tab ++ ideographic_space)
     = "http://site/a b.png"
  /\ Str.strip (g_dot ++ "http://site/a.png" ++ g_dot ++ newline)
     = g_dot ++ "http://site/a.png" ++ g_dot
  /\ blank (nbsp ++ ideographic_space ++ " ")
  /\ ~ blank g_dot.
Proof.
  intros Hl Hb. split; [now rewrite (read_urls_blank lines line rest [] s)|].
  repeat split; try (vm_compute; reflexivity).
  unfold blank. vm_compute. discriminate.
Qed.

(** [X9] When the first line typed is blank, [main] reports that no URL
    was given and stops: no request is made and the directory is not
    touched, whatever follows on standard input. *)
Theorem main_without_urls (line : string) (rest : list string) (w : world) :
  blank line ->
  main (line :: rest) w
  = (Return tt, add_stdout "✗ Error: No URLs provided." (greeted w)).
Proof.
  intros Hb. unfold main, bind, print, try_except, greeted.
  cbn [read_urls]. unfold blank in Hb. rewrite Hb. reflexivity.
Qed.

(** [X10] When standard input ends before a blank line, [input()] raises
    [EOFError], the catch-all handler of [main] prints it, and none of the
    URLs that were typed is fetched. *)
Theorem main_at_end_of_input (stdin : list string) (w : world) :
  Forall (fun l => ~ blank l) stdin ->
  main stdin w
  = (Return tt,
     add_stdout "✗ An unexpected error occurred: EOF when reading a line"
       (greeted w)).
Proof.
  intros Hl. unfold main, bind, print, try_except, greeted.
  now rewrite (read_urls_eof stdin []).
Qed.

(** ** Beyond the claims: the batch *)

Lemma executor_map_requests (urls : list string) (w : world) :
  exists results w' evs,
    executor_map urls w = (Return results, w')
    /\ length results = length urls
    /\ trace w' = (trace w ++ evs)%list
    /\ requests_of evs = urls.
Proof.
  revert w. induction urls as [|url urls IH]; intros w; simpl.
  - exists [], w, []. repeat split. now rewrite app_nil_r.
  - destruct (fetch_requests_once "Fetched_Images" url w)
      as (ok & evs1 & Ht1 & Hq1).
    destruct (fetch_and_save_image "Fetched_Images" url w) as [r w1].
    simpl in Ht1.
    destruct (IH w1) as (results & w2 & evs2 & E & Hlen & Ht2 & Hq2).
    rewrite E. exists (r :: results), w2, (Ev (SGet url) ok :: evs1 ++ evs2).
    split; [reflexivity|]. split; [simpl; now rewrite Hlen|].
    split.
    + rewrite Ht2, Ht1. rewrite <- app_assoc. reflexivity.
    + simpl. rewrite requests_of_app, Hq1, Hq2. reflexivity.
Qed.

(** [X11] A batch requests every one of its URLs exactly once, in their
    order, and keeps one outcome for each: a call that fails, or raises,
    does not stop the requests of the URLs after it. *)
Theorem batch_requests_every_url (urls : list string) (w : world) :
  exists results w' evs,
    executor_map urls w = (Return results, w')
    /\ length results = length urls
    /\ trace w' = (trace w ++ evs)%list
    /\ requests_of evs = urls.
Proof. apply executor_map_requests. Qed.

Lemma count_successes_raise {St} (bs : list bool) (e : exn)
    (rest : list (outcome bool)) (s : St) :
  count_successes (map Return bs ++ Raise e :: rest)%list s = (Raise e, s).
Proof.
  induction bs as [|b bs IH]; simpl; [reflexivity|].
  unfold bind. now rewrite IH.
Qed.

(** [X12] When a call of the batch has raised, the summing of the results
    raises the exception of the first such call, in the order of the URLs;
    the catch-all handler of [main] prints it and no summary line is
    printed, whatever the other calls returned. *)
Theorem first_exception_ends_the_batch (urls : list string) (bs : list bool)
    (e : exn) (rest : list (outcome bool)) (w w' : world) :
  urls <> [] ->
  executor_map urls w
  = (Return (map Return bs ++ Raise e :: rest)%list, w') ->
  try_except (run_batch urls) main_handler w
  = (Return tt,
     add_stdout ("✗ An unexpected error occurred: " ++ str_of e) w').
Proof.
  intros Hne He. destruct urls as [|u urls]; [contradiction|].
  unfold try_except, run_batch, bind. rewrite He.
  unfold summarize, bind. rewrite count_successes_raise.
  reflexivity.
Qed.

Lemma count_successes_state {St} (results : list (outcome bool)) (s : St) :
  snd (count_successes results s) = s.
Proof.
  induction results as [|[b|e] results IH]; simpl; try reflexivity.
  unfold bind. destruct (count_successes results s) as [[n|e] s'];
    simpl in *; exact IH.
Qed.

Lemma batch_trace (urls : list string) (w : world) :
  exists evs,
    trace (snd (try_except (run_batch urls) main_handler w))
    = (trace w ++ evs)%list
    /\ requests_of evs = urls.
Proof.
  destruct urls as [|u urls].
  - exists []. split; [simpl; now rewrite app_nil_r|reflexivity].
  - destruct (executor_map_requests (u :: urls) w)
      as (results & w' & evs & E & _ & Ht & Hq).
    exists evs. split; [|exact Hq].
    unfold try_except, run_batch, bind. rewrite E.
    unfold summarize, bind.
    pose proof (count_successes_state results w') as Hs.
    destruct (count_successes results w') as [[n|e] s']; simpl in Hs;
      subst s'.
    + unfold print. now destruct (0 <? n)%nat.
    + exact Ht.
Qed.

(** [X13] Given the lines typed before the first blank one, and the calls
    of the batch being taken one after the other, [main] requests exactly
    those lines, stripped of the white space around them, once each and in
    their order, whether or not some of the calls fail or raise. *)
Theorem main_requests_the_urls (lines : list string) (line : string)
    (rest : list string) (w : world) :
  Forall (fun l => ~ blank l) lines -> blank line ->
  exists evs,
    trace (snd (main (lines ++ line :: rest) w)) = (trace w ++ evs)%list
    /\ requests_of evs = map Str.strip lines.
Proof.
  intros Hl Hb.
  destruct (batch_trace (map Str.strip lines) (greeted w)) as (evs & Ht & Hq).
  exists evs. split; [|exact Hq].
  unfold main, bind, print.
  unfold try_except at 1. unfold bind.
  rewrite (read_urls_blank lines line rest [] _ Hl Hb).
  exact Ht.
Qed.

End Properties.

End Script.

(** * The sample worlds *)

(** ** Exits before line 62 *)

(** C1, on the code: when the server cannot be reached, the handler of the
    connection error prints its line and returns [False], and the
    [finally] clause then raises [UnboundLocalError] out of the call; in
    [main] the exception comes back when the results are summed, the
    catch-all handler prints it and no summary is printed, though the first
    URL of the batch was fetched. *)
Theorem failed_fetch_raises :
  fst (fetch_and_save_image sample_digest sample_path "Fetched_Images"
         "http://site/down" sample_fresh)
  = Raise (unbound "temp_path")
  /\ stdout (snd (fetch_and_save_image sample_digest sample_path
                    "Fetched_Images" "http://site/down" sample_fresh))
     = ["✗ Error for http://site/down: Failed to connect to the server."]
  /\ stdout (snd (main sample_digest sample_path
                    ["http://site/a.png"; "http://site/down"; EmptyString]
                    sample_other))
     = ["Welcome to the Ubuntu Image Fetcher";
        "A tool for mindfully collecting images from the web" ++ newline;
        "Enter image URLs (one per line, press Enter twice to finish):";
        "✓ Successfully fetched: a.png";
        "✓ Image saved to Fetched_Images/a.png";
        "✗ Error for http://site/down: Failed to connect to the server.";
        "✗ An unexpected error occurred: " ++ str_of (unbound "temp_path")].
Proof. repeat split; vm_compute; reflexivity. Qed.

(** C5, on the code: for a 200 response whose content type is not allowed,
    or is absent, the message is printed, one request is made and the
    directory is not touched, but the call does not return [False]: the
    [finally] clause raises [UnboundLocalError]. *)
Theorem invalid_content_type_raises :
  fst (fetch_and_save_image sample_digest sample_path "Fetched_Images"
         "http://site/page" sample_fresh)
  = Raise (unbound "temp_path")
  /\ stdout (snd (fetch_and_save_image sample_digest sample_path
                    "Fetched_Images" "http://site/page" sample_fresh))
     = ["✗ Error for http://site/page: Invalid content type (text/html). "
        ++ "Expected an image."]
  /\ trace (snd (fetch_and_save_image sample_digest sample_path
                   "Fetched_Images" "http://site/page" sample_fresh))
     = [Ev (SGet "http://site/page") true]
  /\ dir (snd (fetch_and_save_image sample_digest sample_path
                 "Fetched_Images" "http://site/page" sample_fresh))
     = None
  /\ fst (fetch_and_save_image sample_digest sample_path "Fetched_Images"
            "http://site/bare" sample_fresh)
     = Raise (unbound "temp_path")
  /\ stdout (snd (fetch_and_save_image sample_digest sample_path
                    "Fetched_Images" "http://site/bare" sample_fresh))
     = ["✗ Error for http://site/bare: Invalid content type (). "
        ++ "Expected an image."].
Proof. repeat split; vm_compute; reflexivity. Qed.

(** ** The file name *)


(** ** A path that names nothing *)

Lemma get_file_hash_missing_witness :
  nameable "Fetched_Images" "gone.png"
  /\ lookup "gone.png" [("b.png", File "PNGDATA")] = None
  /\ hd None (faults sample_populated) = None
  /\ fst (get_file_hash sample_digest "Fetched_Images"
            "Fetched_Images/gone.png" sample_populated)
     = Return None.
Proof.
  assert (Hn : nameable "Fetched_Images" "gone.png")
    by (repeat split; try discriminate; reflexivity).
  split; [exact Hn|]. split; [reflexivity|]. split; [reflexivity|].
  destruct (get_file_hash_missing sample_digest "Fetched_Images"
              "gone.png" [("b.png", File "PNGDATA")] sample_populated
              Hn eq_refl eq_refl eq_refl) as [H _].
  exact (f_equal fst H).
Defined.

(** C10, as stated, fails: a path that runs through a regular file names
    nothing, and so does a path with a NUL byte or with a component of more
    than 255 bytes, or the path of a missing entry of a directory that may
    not be searched; yet the opening fails with another error than
    [FileNotFoundError] and [get_file_hash] raises.  It raises as well for
    a path that names a directory and no file. *)
Lemma path_through_a_file_raises :
  stat "Fetched_Images" "Fetched_Images/b.png/x" sample_populated = None
  /\ fst (get_file_hash sample_digest "Fetched_Images"
            "Fetched_Images/b.png/x" sample_populated)
     = Raise (mkExn NotADirectoryError
                "[Errno 20] Not a directory: 'Fetched_Images/b.png/x'")
  /\ stat "Fetched_Images" ("Fetched_Images/a" ++ String zero "b.png")
       sample_populated = None
  /\ fst (get_file_hash sample_digest "Fetched_Images"
            ("Fetched_Images/a" ++ String zero "b.png") sample_populated)
     = Raise (mkExn OtherException "embedded null byte")
  /\ stat "Fetched_Images"
       ("Fetched_Images/" ++ string_of_list_ascii (repeat "a"%char 256))
       sample_populated = None
  /\ class_of_outcome
       (fst (get_file_hash sample_digest "Fetched_Images"
               ("Fetched_Images/"
                ++ string_of_list_ascii (repeat "a"%char 256))
               sample_populated))
     = Some OtherException
  /\ stat "Fetched_Images" "Fetched_Images/gone.png" sample_locked = None
  /\ fst (get_file_hash sample_digest "Fetched_Images"
            "Fetched_Images/gone.png" sample_locked)
     = Raise (mkExn PermissionError "[Errno 13] Permission denied")
  /\ stat "Fetched_Images" "Fetched_Images/thumbs" sample_with_subdir
     = Some Dir
  /\ fst (get_file_hash sample_digest "Fetched_Images"
            "Fetched_Images/thumbs" sample_with_subdir)
     = Raise (mkExn IsADirectoryError
                "[Errno 21] Is a directory: 'Fetched_Images/thumbs'").
Proof. repeat split; vm_compute; reflexivity. Qed.

(** ** The clean-up *)



(** ** Distinct digests *)

Ltac lookup_cases H :=
  cbv beta iota delta
    [entries sample_other sample_populated sample_read_only
     sample_read_only_dup dir lookup] in H;
  repeat match type of H with
    | context [String.eqb ?a ?b] =>
        destruct (String.eqb_spec a b); try subst
    end;
  try discriminate.

(** C2, as stated, fails: the read-only directory holds the image as
    [b.png] and a stale temporary file of other content, so that its files
    have distinct digests; the run finds the duplicate, cannot remove its
    temporary file, and leaves two files of the same digest. *)
Lemma failed_removal_leaves_a_duplicate :
  hash_unique sample_digest (entries sample_read_only_dup)
  /\ fst (fetch_and_save_image sample_digest sample_path "Fetched_Images"
            "http://site/a.png" sample_read_only_dup)
     = Return false
  /\ entries (snd (fetch_and_save_image sample_digest sample_path
                     "Fetched_Images" "http://site/a.png"
                     sample_read_only_dup))
     = [("a.png.tmp", File "PNGDATA"); ("b.png", File "PNGDATA")]
  /\ ~ hash_unique sample_digest
         (entries (snd (fetch_and_save_image sample_digest sample_path
                          "Fetched_Images" "http://site/a.png"
                          sample_read_only_dup))).
Proof.
  split; [|split; [|split]].
  - intros n1 n2 c1 c2 H1 H2 Hh. unfold sample_digest in Hh.
    lookup_cases H1; lookup_cases H2; congruence.
  - vm_compute. reflexivity.
  - vm_compute. reflexivity.
  - intros H.
    assert (E : "a.png.tmp" = "b.png");
      [|discriminate].
    apply (H "a.png.tmp" "b.png" "PNGDATA" "PNGDATA"); reflexivity.
Qed.

Lemma dedup_keeps_digests_distinct_witness :
  relative_names (entries sample_other)
  /\ hash_unique sample_digest (entries sample_other)
  /\ hash_unique sample_digest
       (entries (snd (fetch_and_save_image sample_digest sample_path
                        "Fetched_Images" "http://site/a.png" sample_other))).
Proof.
  assert (Hr : relative_names (entries sample_other)).
  { intros n x H. lookup_cases H. reflexivity. }
  assert (Hu : hash_unique sample_digest (entries sample_other)).
  { intros n1 n2 c1 c2 H1 H2 _. lookup_cases H1. lookup_cases H2.
    reflexivity. }
  split; [exact Hr|]. split; [exact Hu|].
  destruct (dedup_keeps_digests_distinct sample_digest sample_path
              "Fetched_Images" "http://site/a.png" sample_other Hr Hu)
    as (_ & _ & H).
  apply H. reflexivity.
Defined.

(** ** Twice the same URL *)

Lemma fetch_twice_stores_once_witness :
  reaches_store "http://site/download" sample_other
  = Some (mkResponse 200 (Some "image/jpeg") "JPEGDATA")
  /\ faults sample_other = []
  /\ nameable "Fetched_Images" "image_20240309_070559.jpg.tmp"
  /\ nameable "Fetched_Images" "image_20240309_070601.jpg.tmp"
  /\ exists w1 w2,
       fetch_and_save_image sample_digest sample_path "Fetched_Images"
         "http://site/download" sample_other = (Return true, w1)
       /\ lookup "image_20240309_070559.jpg" (entries w1)
          = Some (File "JPEGDATA")
       /\ fetch_and_save_image sample_digest sample_path "Fetched_Images"
            "http://site/download" (set_now (mkDatetime 2024 3 9 7 6 1) w1)
          = (Return false, w2)
       /\ dir w2 = dir w1.
Proof.
  assert (N1 : nameable "Fetched_Images" "image_20240309_070559.jpg.tmp")
    by (repeat split; try discriminate; reflexivity).
  assert (N2 : nameable "Fetched_Images" "image_20240309_070601.jpg.tmp")
    by (repeat split; try discriminate; reflexivity).
  split; [reflexivity|]. split; [reflexivity|].
  split; [exact N1|]. split; [exact N2|].
  destruct (fetch_twice_stores_once sample_digest sample_path
              "Fetched_Images" "http://site/download" sample_other
              (mkResponse 200 (Some "image/jpeg") "JPEGDATA")
              (mkDatetime 2024 3 9 7 6 1) eq_refl eq_refl)
    as (w1 & w2 & E1 & L1 & _ & T1 & E2 & D2 & K2 & _).
  - intros n x H. lookup_cases H. inversion H. now exists "OTHER".
  - intros n x H. lookup_cases H. reflexivity.
  - exact N1.
  - exact N2.
  - intros n c _ H. lookup_cases H. inversion H; subst. discriminate.
  - exists w1, w2. split; [exact E1|]. split; [exact L1|].
    split; [exact E2|]. apply K2.
    assert (W : w1 = snd (fetch_and_save_image sample_digest sample_path
                            "Fetched_Images" "http://site/download"
                            sample_other)) by now rewrite E1.
    rewrite W. vm_compute. reflexivity.
Defined.

(** C3, as stated, fails: in a directory that holds a subdirectory the
    scan raises on it, so the first fetch returns [False] with the line of
    the catch-all handler, and so does the second; nothing is stored.  In a
    directory that holds the image already, or that refuses the renaming,
    the first fetch returns [False] as well. *)
Lemma subdirectory_stops_both_fetches :
  fetch_and_save_image sample_digest sample_path "Fetched_Images"
    "http://site/a.png" sample_with_subdir
  = (Return false,
     mkWorld sample_http sample_clock
       (Some [("c.png", File "OTHER"); ("thumbs", Dir)]) []
       ["✗ Error for http://site/a.png: An unexpected error occurred - "
        ++ "[Errno 21] Is a directory: 'Fetched_Images/thumbs'"]
       [Ev (SGet "http://site/a.png") true;
        Ev (SMakedirs "Fetched_Images") true;
        Ev (SOpenW "Fetched_Images/a.png.tmp") true;
        Ev (SWrite "Fetched_Images/a.png.tmp" "PNGDATA") true;
        Ev (SOpenR "Fetched_Images/a.png.tmp") true;
        Ev (SListdir "Fetched_Images") true;
        Ev (SOpenR "Fetched_Images/c.png") true;
        Ev (SOpenR "Fetched_Images/thumbs") false;
        Ev (SExists "Fetched_Images/a.png.tmp") true;
        Ev (SRemove "Fetched_Images/a.png.tmp") true])
  /\ fst (fetch_and_save_image sample_digest sample_path "Fetched_Images"
            "http://site/a.png"
            (snd (fetch_and_save_image sample_digest sample_path
                    "Fetched_Images" "http://site/a.png" sample_with_subdir)))
     = Return false
  /\ dir (snd (fetch_and_save_image sample_digest sample_path
                 "Fetched_Images" "http://site/a.png"
                 (snd (fetch_and_save_image sample_digest sample_path
                         "Fetched_Images" "http://site/a.png"
                         sample_with_subdir))))
     = Some [("c.png", File "OTHER"); ("thumbs", Dir)]
  /\ fst (fetch_and_save_image sample_digest sample_path "Fetched_Images"
            "http://site/a.png" sample_populated)
     = Return false
  /\ fst (fetch_and_save_image sample_digest sample_path "Fetched_Images"
            "http://site/a.png" sample_read_only)
     = Return false.
Proof. repeat split; vm_compute; reflexivity. Qed.

(** ** The summary *)

(** C8, as stated, fails: for a batch of one URL whose image the
    directory holds already, the call returns [False], the success count is
    zero and the summary is the failure message, without [0/1]. *)
Lemma summary_without_count :
  fst (executor_map sample_digest sample_path ["http://site/a.png"]
         sample_populated)
  = Return [Return false]
  /\ last (stdout (snd (main sample_digest sample_path
                          ["http://site/a.png"; EmptyString]
                          sample_populated)))
       EmptyString
     = failed_line
  /\ Str.contains "0/1" failed_line = false.
Proof. repeat split; vm_compute; reflexivity. Qed.

Lemma summary_of_a_batch_witness :
  ["http://site/a.png"; "http://site/a.png"] <> []
  /\ fst (executor_map sample_digest sample_path
            ["http://site/a.png"; "http://site/a.png"] sample_other)
     = Return (map Return [true; false])
  /\ last (stdout (snd (run_batch sample_digest sample_path
                          ["http://site/a.png"; "http://site/a.png"]
                          sample_other)))
       EmptyString
     = enriched_line 1 2
  /\ Str.contains "1/2" (enriched_line 1 2) = true.
Proof.
  split; [discriminate|]. split; [vm_compute; reflexivity|].
  destruct (summary_of_a_batch sample_digest sample_path
              ["http://site/a.png"; "http://site/a.png"] [true; false]
              sample_other
              (snd (executor_map sample_digest sample_path
                      ["http://site/a.png"; "http://site/a.png"]
                      sample_other)))
    as (E & C & _).
  - discriminate.
  - vm_compute. reflexivity.
  - split; [|exact C].
    rewrite E. vm_compute. reflexivity.
Defined.

(** ** Beyond the claims, on the sample worlds *)

Ltac entry_cases H :=
  cbv beta iota delta
    [entries sample_other sample_populated sample_with_subdir sample_mirror
     sample_error dir lookup] in H;
  repeat match type of H with
    | context [String.eqb ?a ?b] =>
        destruct (String.eqb_spec a b); try subst
    end;
  try discriminate.

Lemma exits_before_line_62_raise_witness :
  (exists r, http sample_error "http://site/x.png" = Return r
             /\ 400 <= status_code r < 600)
  /\ fst (fetch_and_save_image sample_digest sample_path "Fetched_Images"
            "http://site/x.png" sample_error)
     = Raise (unbound "temp_path").
Proof.
  assert (H : exists r, http sample_error "http://site/x.png" = Return r
                        /\ 400 <= status_code r < 600).
  { eexists. split; [reflexivity|]. simpl. lia. }
  split; [exact H|].
  destruct (exits_before_line_62_raise sample_digest sample_path
              "Fetched_Images" "http://site/x.png" sample_error)
    as (w' & evs & E & _).
  - right. destruct H as (r & Hr & Hs). exists r. split; [exact Hr|now left].
  - now rewrite E.
Defined.

Lemma other_entries_untouched_witness :
  "c.png" <> derive_filename sample_path "http://site/a.png" (now sample_other)
  /\ lookup "c.png"
       (entries (snd (fetch_and_save_image sample_digest sample_path
                        "Fetched_Images" "http://site/a.png" sample_other)))
     = Some (File "OTHER").
Proof.
  split; [discriminate|].
  rewrite (other_entries_untouched sample_digest sample_path "Fetched_Images"
             "http://site/a.png" "c.png" sample_other);
    [reflexivity|discriminate|discriminate].
Defined.

Lemma subdirectory_blocks_storing_witness :
  lookup "thumbs" (entries sample_with_subdir) = Some Dir
  /\ fst (fetch_and_save_image sample_digest sample_path "Fetched_Images"
            "http://site/a.png" sample_with_subdir)
     <> Return true.
Proof.
  split; [reflexivity|].
  apply (subdirectory_blocks_storing sample_digest sample_path
           "Fetched_Images" "http://site/a.png" "thumbs" sample_with_subdir);
    [reflexivity|reflexivity|discriminate].
Defined.

Lemma known_image_is_skipped_witness :
  reaches_store "http://site/a.png" sample_populated
  = Some (mkResponse 200 (Some "image/png") "PNGDATA")
  /\ faults sample_populated = []
  /\ nameable "Fetched_Images" "a.png.tmp"
  /\ lookup "b.png" (entries sample_populated) = Some (File "PNGDATA")
  /\ exists w',
       fetch_and_save_image sample_digest sample_path "Fetched_Images"
         "http://site/a.png" sample_populated
       = (Return false, w')
       /\ dir w' = dir sample_populated.
Proof.
  assert (Hn : nameable "Fetched_Images" "a.png.tmp")
    by (repeat split; try discriminate; reflexivity).
  split; [reflexivity|]. split; [reflexivity|]. split; [exact Hn|].
  split; [reflexivity|].
  destruct (known_image_is_skipped sample_digest sample_path
              "Fetched_Images" "http://site/a.png" "b.png" "PNGDATA"
              sample_populated
              (mkResponse 200 (Some "image/png") "PNGDATA")
              [("b.png", File "PNGDATA")] eq_refl eq_refl eq_refl)
    as (f & c & w' & E & _ & _ & _ & D & _).
  - intros n x H. entry_cases H. inversion H. now exists "PNGDATA".
  - intros n x H. entry_cases H. reflexivity.
  - exact Hn.
  - discriminate.
  - reflexivity.
  - reflexivity.
  - exists w'. split; [exact E|]. rewrite D. reflexivity.
Defined.

Lemma same_name_overwrites_witness :
  derive_filename sample_path "http://site/x/a.png" (now sample_mirror)
  = derive_filename sample_path "http://site/a.png" (now sample_mirror)
  /\ faults sample_mirror = []
  /\ nameable "Fetched_Images" "a.png.tmp"
  /\ exists w1 w2,
       fetch_and_save_image sample_digest sample_path "Fetched_Images"
         "http://site/a.png" sample_mirror = (Return true, w1)
       /\ fetch_and_save_image sample_digest sample_path "Fetched_Images"
            "http://site/x/a.png" w1 = (Return true, w2)
       /\ lookup "a.png" (entries w2) = Some (File "ANOTHER").
Proof.
  assert (Hn : nameable "Fetched_Images" "a.png.tmp")
    by (repeat split; try discriminate; reflexivity).
  split; [reflexivity|]. split; [reflexivity|]. split; [exact Hn|].
  destruct (same_name_overwrites sample_digest sample_path "Fetched_Images"
              "http://site/a.png" "http://site/x/a.png" sample_mirror
              (mkResponse 200 (Some "image/png") "PNGDATA")
              (mkResponse 200 (Some "image/png") "ANOTHER")
              eq_refl eq_refl eq_refl)
    as (w1 & w2 & E1 & _ & E2 & L2 & _).
  - intros n x H. entry_cases H. inversion H. now exists "OTHER".
  - intros n x H. entry_cases H. reflexivity.
  - exact Hn.
  - reflexivity.
  - discriminate.
  - intros n c _ H. entry_cases H. inversion H; subst.
    split; discriminate.
  - exists w1, w2. auto.
Defined.

Lemma urls_are_the_lines_before_the_blank_witness :
  Forall (fun l => ~ blank l)
    [nbsp ++ "http://site/a.png "; "http://site/page"]
  /\ blank (" " ++ nbsp)
  /\ fst (read_urls
            ([nbsp ++ "http://site/a.png "; "http://site/page"]
             ++ (" " ++ nbsp) :: ["http://site/late"]) [] tt)
     = Return ["http://site/a.png"; "http://site/page"].
Proof.
  assert (H : Forall (fun l => ~ blank l)
                [nbsp ++ "http://site/a.png "; "http://site/page"])
    by (repeat constructor; unfold blank; vm_compute; discriminate).
  split; [exact H|]. split; [reflexivity|].
  destruct (urls_are_the_lines_before_the_blank
              [nbsp ++ "http://site/a.png "; "http://site/page"]
              (" " ++ nbsp) ["http://site/late"] tt H eq_refl) as [E _].
  exact (f_equal fst E).
Defined.

Lemma main_without_urls_witness :
  blank EmptyString
  /\ trace (snd (main sample_digest sample_path
                   [EmptyString; "http://site/a.png"] sample_other))
     = [].
Proof.
  split; [reflexivity|].
  now rewrite (main_without_urls sample_digest sample_path EmptyString
                 ["http://site/a.png"] sample_other eq_refl).
Defined.

Lemma main_at_end_of_input_witness :
  Forall (fun l => ~ blank l) ["http://site/a.png"; g_dot]
  /\ trace (snd (main sample_digest sample_path ["http://site/a.png"; g_dot]
                   sample_other))
     = []
  /\ dir (snd (main sample_digest sample_path ["http://site/a.png"; g_dot]
                 sample_other))
     = dir sample_other.
Proof.
  assert (H : Forall (fun l => ~ blank l) ["http://site/a.png"; g_dot])
    by (repeat constructor; unfold blank; vm_compute; discriminate).
  split; [exact H|].
  now rewrite (main_at_end_of_input sample_digest sample_path
                 ["http://site/a.png"; g_dot] sample_other H).
Defined.

Lemma first_exception_ends_the_batch_witness :
  ["http://site/a.png"; "http://site/down"] <> []
  /\ fst (executor_map sample_digest sample_path
            ["http://site/a.png"; "http://site/down"] sample_other)
     = Return [Return true; Raise (unbound "temp_path")]
  /\ last (stdout (snd (try_except
                          (run_batch sample_digest sample_path
                             ["http://site/a.png"; "http://site/down"])
                          main_handler sample_other)))
       EmptyString
     = "✗ An unexpected error occurred: " ++ str_of (unbound "temp_path").
Proof.
  split; [discriminate|]. split; [vm_compute; reflexivity|].
  rewrite (first_exception_ends_the_batch sample_digest sample_path
             ["http://site/a.png"; "http://site/down"] [true]
             (unbound "temp_path") [] sample_other
             (snd (executor_map sample_digest sample_path
                     ["http://site/a.png"; "http://site/down"]
                     sample_other))).
  - vm_compute. reflexivity.
  - discriminate.
  - vm_compute. reflexivity.
Defined.

Lemma main_requests_the_urls_witness :
  Forall (fun l => ~ blank l)
    ["http://site/down"; nbsp ++ "http://site/a.png"]
  /\ blank nbsp
  /\ requests_of
       (trace (snd (main sample_digest sample_path
                      (["http://site/down"; nbsp ++ "http://site/a.png"]
                       ++ nbsp :: []) sample_other)))
     = ["http://site/down"; "http://site/a.png"].
Proof.
  assert (H : Forall (fun l => ~ blank l)
                ["http://site/down"; nbsp ++ "http://site/a.png"])
    by (repeat constructor; unfold blank; vm_compute; discriminate).
  split; [exact H|]. split; [reflexivity|].
  destruct (main_requests_the_urls sample_digest sample_path
              ["http://site/down"; nbsp ++ "http://site/a.png"] nbsp []
              sample_other H eq_refl) as (evs & Ht & Hq).
  rewrite Ht. exact Hq.
Defined.

Lemma scan_stops_at_first_result_witness :
  fst (scan sample_digest "Fetched_Images" "Fetched_Images/a.png.tmp"
         (Some "PNGDATA") ["b.png"] sample_populated)
  <> Return None
  /\ fst (scan sample_digest "Fetched_Images" "Fetched_Images/a.png.tmp"
            (Some "PNGDATA") (["b.png"] ++ ["thumbs"; "z.png"])
            sample_populated)
     = Return (Some "b.png").
Proof.
  assert (H : fst (scan sample_digest "Fetched_Images"
                     "Fetched_Images/a.png.tmp" (Some "PNGDATA") ["b.png"]
                     sample_populated) <> Return None)
    by (vm_compute; discriminate).
  split; [exact H|].
  rewrite (scan_stops_at_first_result sample_digest "Fetched_Images"
             "Fetched_Images/a.png.tmp" (Some "PNGDATA") ["b.png"]
             ["thumbs"; "z.png"] sample_populated _ _
             (surjective_pairing _) H).
  vm_compute. reflexivity.
Defined.
